(** * Backend utilities ([services/backend/app/utils.py])

    A shallow embedding of the three helpers of the backend's [utils]
    module, and the properties its specification states about them:

    - [make_id]: a random identifier over [a-z0-9];
    - [hash_weak_password]: SHA-256 of ["salty$" + s], in hexadecimal;
    - [remove_unwanted_characters]: [s.replace("<", "")].

    Python values are modelled as follows.  A [str] is the list of its code
    points (numbers below [0x110000], lone surrogates included, as in
    CPython); [bytes] is a list of numbers below 256; an [int] is a [Z].
    A function body runs in the monad [Py]: it reads the module's global
    namespace and the state of the shared pseudo-random generator, and it
    either returns a value or raises an exception.  Memory limits are not
    modelled; a count handed to the library is a C [ssize_t] of a 64-bit
    build. *)

From Stdlib Require Import ZArith NArith List String Ascii Lia.
From stdpp Require Import base option numbers list strings gmap.

Local Open Scope N_scope.

(** ** Python strings *)

(** A string literal of the source, as code points (the literals of the
    module are ASCII). *)
Definition lit (s : string) : list N :=
  (fun a : ascii => N_of_ascii a) <$> list_ascii_of_string s.

(** [is_prefix p s]: [s] starts with [p] ([s.startswith(p)]). *)
Fixpoint is_prefix (p s : list N) : bool :=
  match p, s with
  | [], _ => true
  | _ :: _, [] => false
  | a :: p', b :: s' => (a =? b) && is_prefix p' s'
  end.

(** The scan of [str.replace] for a non-empty pattern: left to right, each
    match is replaced and the scan resumes after it, so matches do not
    overlap.  [skip] counts the characters of the current match that are
    still to be passed over. *)
Fixpoint replace_scan (old new : list N) (skip : nat) (s : list N) : list N :=
  match s with
  | [] => []
  | c :: t =>
      match skip with
      | S n => replace_scan old new n t
      | O =>
          if is_prefix old s
          then new ++ replace_scan old new (Nat.pred (length old)) t
          else c :: replace_scan old new 0 t
      end
  end.

(** [s.replace(old, new)].  The empty pattern matches before every
    character and at the end. *)
Definition str_replace (s old new : list N) : list N :=
  match old with
  | [] => new ++ flat_map (fun c => c :: new) s
  | _ :: _ => replace_scan old new 0 s
  end.

(** [s.count(c)] for a one-character pattern. *)
Fixpoint str_count (c : N) (s : list N) : nat :=
  match s with
  | [] => 0%nat
  | x :: t => if x =? c then S (str_count c t) else str_count c t
  end.

(** ** [remove_unwanted_characters]

    [def remove_unwanted_characters(s: str) -> str:
         return s.replace("<", "")] *)
Definition remove_unwanted_characters (s : list N) : list N :=
  str_replace s (lit "<") (lit "").

(** The specification's wording: the string obtained by deleting every
    occurrence of one character, the others kept in their order. *)
Definition LT_SIGN : N := 60.

Fixpoint delete_char (c : N) (s : list N) : list N :=
  match s with
  | [] => []
  | x :: t => if x =? c then delete_char c t else x :: delete_char c t
  end.

(** ** UTF-8 ([str.encode()], whose default codec is UTF-8, strict) *)

Definition is_surrogate (c : N) : bool := (0xD800 <=? c) && (c <=? 0xDFFF).

(** A Unicode scalar value: a code point that is not a surrogate. *)
Definition is_scalar (c : N) : Prop := c < 0x110000 ∧ is_surrogate c = false.

(** A continuation byte carrying bits [6k .. 6k+5] of [c]. *)
Definition utf8_cont (c : N) (k : N) : N :=
  N.lor 0x80 (N.land (N.shiftr c (6 * k)) 0x3F).

Definition utf8_char (c : N) : list N :=
  if c <? 0x80 then [c]
  else if c <? 0x800 then [N.lor 0xC0 (N.shiftr c 6); utf8_cont c 0]
  else if c <? 0x10000 then
    [N.lor 0xE0 (N.shiftr c 12); utf8_cont c 1; utf8_cont c 0]
  else
    [N.lor 0xF0 (N.shiftr c 18); utf8_cont c 2; utf8_cont c 1; utf8_cont c 0].

(** The bytes of a string none of whose characters is rejected. *)
Definition utf8 (s : list N) : list N := flat_map utf8_char s.

(** The index of the first surrogate, which the strict codec rejects. *)
Fixpoint first_surrogate (pos : nat) (s : list N) : option nat :=
  match s with
  | [] => None
  | c :: t => if is_surrogate c then Some pos else first_surrogate (S pos) t
  end.

(** ** SHA-256 (FIPS 180-4), which [hashlib.sha256] computes *)

Module SHA256.

(** 32-bit words are numbers below [2^32]. *)
Definition wrap (x : N) : N := x mod 2 ^ 32.
Definition add32 (x y : N) : N := wrap (x + y).
Definition not32 (x : N) : N := N.lxor x 0xFFFFFFFF.
Definition rotr (n x : N) : N :=
  N.lor (N.shiftr x n) (wrap (N.shiftl x (32 - n))).

Definition Ch (x y z : N) : N := N.lxor (N.land x y) (N.land (not32 x) z).
Definition Maj (x y z : N) : N :=
  N.lxor (N.lxor (N.land x y) (N.land x z)) (N.land y z).
Definition Sigma0 (x : N) : N :=
  N.lxor (N.lxor (rotr 2 x) (rotr 13 x)) (rotr 22 x).
Definition Sigma1 (x : N) : N :=
  N.lxor (N.lxor (rotr 6 x) (rotr 11 x)) (rotr 25 x).
Definition sigma0 (x : N) : N :=
  N.lxor (N.lxor (rotr 7 x) (rotr 18 x)) (N.shiftr x 3).
Definition sigma1 (x : N) : N :=
  N.lxor (N.lxor (rotr 17 x) (rotr 19 x)) (N.shiftr x 10).

(** The constants are the first 32 bits of the fractional parts of the
    square roots (initial hash value) and of the cube roots (round
    constants) of the first primes.  [iroot d x bits] is the integer
    [d]-th root of [x], found bit by bit from bit [bits - 1] down. *)
Fixpoint iroot_from (d x : N) (bits : nat) (acc : N) : N :=
  match bits with
  | O => acc
  | S b =>
      let cand := acc + 2 ^ N.of_nat b in
      iroot_from d x b (if cand ^ d <=? x then cand else acc)
  end.

Definition iroot (d x : N) : N := iroot_from d x 40 0.

Definition primes : list N :=
  [2; 3; 5; 7; 11; 13; 17; 19; 23; 29; 31; 37; 41; 43; 47; 53; 59; 61; 67;
   71; 73; 79; 83; 89; 97; 101; 103; 107; 109; 113; 127; 131; 137; 139;
   149; 151; 157; 163; 167; 173; 179; 181; 191; 193; 197; 199; 211; 223;
   227; 229; 233; 239; 241; 251; 257; 263; 269; 271; 277; 281; 283; 293;
   307; 311].

Definition K : list N :=
  Eval vm_compute in map (fun p => wrap (iroot 3 (p * 2 ^ 96))) primes.

Record regs : Type := Regs
  { ra : N; rb : N; rc : N; rd : N; re : N; rf : N; rg : N; rh : N }.

Definition H0 : regs :=
  Eval vm_compute in
    let h i := wrap (iroot 2 (nth i primes 0 * 2 ^ 64)) in
    Regs (h 0%nat) (h 1%nat) (h 2%nat) (h 3%nat)
         (h 4%nat) (h 5%nat) (h 6%nat) (h 7%nat).

(** Padding: the bit 1, zeros up to 56 modulo 64 bytes, and the length of
    the message in bits as a 64-bit big-endian number. *)
Definition be_bytes (n : nat) (x : N) : list N :=
  map (fun i => N.land (N.shiftr x (8 * N.of_nat i)) 0xFF) (rev (seq 0 n)).

Definition pad (msg : list N) : list N :=
  let len := N.of_nat (length msg) in
  msg ++ 0x80 :: repeat 0 (N.to_nat ((119 - len mod 64) mod 64))
      ++ be_bytes 8 (8 * len).

(** The first [n] big-endian 32-bit words of a byte sequence. *)
Fixpoint be_words (n : nat) (bs : list N) : list N :=
  match n, bs with
  | S n', b0 :: b1 :: b2 :: b3 :: rest =>
      N.lor (N.lor (N.shiftl b0 24) (N.shiftl b1 16))
            (N.lor (N.shiftl b2 8) b3)
        :: be_words n' rest
  | _, _ => []
  end.

(** The message schedule, most recent word first: [W_t] is
    [sigma1 W_(t-2) + W_(t-7) + sigma0 W_(t-15) + W_(t-16)]. *)
Fixpoint extend (n : nat) (W : list N) : list N :=
  match n with
  | O => W
  | S n' =>
      let w := add32 (add32 (sigma1 (nth 1 W 0)) (nth 6 W 0))
                     (add32 (sigma0 (nth 14 W 0)) (nth 15 W 0)) in
      extend n' (w :: W)
  end.

Definition schedule (block : list N) : list N :=
  rev (extend 48 (rev (be_words 16 block))).

Definition round (s : regs) (kw : N * N) : regs :=
  let T1 := add32 (add32 (add32 (rh s) (Sigma1 (re s)))
                         (Ch (re s) (rf s) (rg s)))
                  (add32 (fst kw) (snd kw)) in
  let T2 := add32 (Sigma0 (ra s)) (Maj (ra s) (rb s) (rc s)) in
  Regs (add32 T1 T2) (ra s) (rb s) (rc s)
       (add32 (rd s) T1) (re s) (rf s) (rg s).

Definition compress (s : regs) (block : list N) : regs :=
  let t := fold_left round (combine K (schedule block)) s in
  Regs (add32 (ra s) (ra t)) (add32 (rb s) (rb t))
       (add32 (rc s) (rc t)) (add32 (rd s) (rd t))
       (add32 (re s) (re t)) (add32 (rf s) (rf t))
       (add32 (rg s) (rg t)) (add32 (rh s) (rh t)).

Fixpoint blocks (n : nat) (bs : list N) : list (list N) :=
  match n with
  | O => []
  | S n' => take 64 bs :: blocks n' (drop 64 bs)
  end.

Definition regs_words (s : regs) : list N :=
  [ra s; rb s; rc s; rd s; re s; rf s; rg s; rh s].

(** The 32 bytes of the digest. *)
Definition digest (msg : list N) : list N :=
  let p := pad msg in
  flat_map (be_bytes 4)
    (regs_words (fold_left compress (blocks (length p / 64) p) H0)).

End SHA256.

(** ** Hexadecimal rendering ([hexdigest]) *)

(** The digit of a value below 16: ['0'..'9'] then ['a'..'f']. *)
Definition hex_digit (n : N) : N := if n <? 10 then 48 + n else 87 + n.

Definition hex_byte (b : N) : list N := [hex_digit (b / 16); hex_digit (b mod 16)].

Definition hexlify (bs : list N) : list N := flat_map hex_byte bs.

Definition is_lower_hex (c : N) : Prop :=
  (48 <= c ∧ c <= 57) ∨ (97 <= c ∧ c <= 102).

(** The specification's wording of the password digest: SHA-256 of the
    UTF-8 encoding of ["salty$"] followed by [s], in lowercase hexadecimal. *)
Definition salted_sha256_hex (s : list N) : list N :=
  hexlify (SHA256.digest (utf8 (lit "salty$" ++ s))).

(** ** Python objects, exceptions and the state a call can see *)

#[local] Set Warnings "-register-all".

Inductive stdmodule : Type := mod_hashlib | mod_random | mod_string.

(** The two library callables the module reaches: [hashlib.sha256] and
    [random.choices] (a method of the generator shared by the process). *)
Inductive builtin_fn : Type := fn_sha256 | fn_choices.

(** The objects modelled: [None], integers (a [bool] counts as the [int]
    it is), strings, [bytes], lists, the library modules and the two
    callables, the module's own functions, SHA-256 hash objects, and the
    builtins that are not data (functions, classes, singletons such as
    [Ellipsis]), kept by name.  Instances of other classes are not
    modelled. *)
Inductive pyobj : Type :=
  | PyNone
  | PyInt (z : Z)
  | PyStr (s : list N)
  | PyBytes (b : list N)
  | PyList (items : list pyobj)
  | PyModule (m : stdmodule)
  | PyCallable (f : builtin_fn)
  | PyFunction (name : string)
  | PyBuiltinName (name : string)
  | PyHash (data : list N).

Inductive exn : Type :=
  | NameError (name : string)
  | AttributeError (attr : string)
  | TypeError
  | ValueError
  | IndexError
  | UnicodeEncodeError (pos : nat)
  | OverflowError.

Inductive outcome (A : Type) : Type :=
  | Ok (a : A)
  | Raise (e : exn).
Arguments Ok {A} a.
Arguments Raise {A} e.

(** The module's global namespace, and the shared generator: the sequence
    of the values [random.random()] will return, each as the numerator of a
    fraction over [2^53], and the number of values already drawn. *)
Record World : Type := mkWorld
  { globals : gmap string pyobj;
    rng_tape : nat → N;
    rng_pos : nat }.

Definition Py (A : Type) : Type := World → outcome A * World.

#[export] Instance Py_ret : MRet Py := fun A a w => (Ok a, w).

#[export] Instance Py_bind : MBind Py := fun A B f m w =>
  match m w with
  | (Ok a, w') => f a w'
  | (Raise e, w') => (Raise e, w')
  end.

Definition raise {A : Type} (e : exn) : Py A := fun w => (Raise e, w).

(** What the names of the [builtins] module are (CPython 3.11); a global
    name is looked up in the module's namespace, then there. *)
Definition builtin_names : list string :=
  ["ArithmeticError"; "AssertionError"; "AttributeError"; "BaseException";
   "BaseExceptionGroup"; "BlockingIOError"; "BrokenPipeError"; "BufferError";
   "BytesWarning"; "ChildProcessError"; "ConnectionAbortedError";
   "ConnectionError"; "ConnectionRefusedError"; "ConnectionResetError";
   "DeprecationWarning"; "EOFError"; "Ellipsis"; "EncodingWarning";
   "EnvironmentError"; "Exception"; "ExceptionGroup"; "False";
   "FileExistsError"; "FileNotFoundError"; "FloatingPointError";
   "FutureWarning"; "GeneratorExit"; "IOError"; "ImportError";
   "ImportWarning"; "IndentationError"; "IndexError"; "InterruptedError";
   "IsADirectoryError"; "KeyError"; "KeyboardInterrupt"; "LookupError";
   "MemoryError"; "ModuleNotFoundError"; "NameError"; "None";
   "NotADirectoryError"; "NotImplemented"; "NotImplementedError"; "OSError";
   "OverflowError"; "PendingDeprecationWarning"; "PermissionError";
   "ProcessLookupError"; "RecursionError"; "ReferenceError";
   "ResourceWarning"; "RuntimeError"; "RuntimeWarning";
   "StopAsyncIteration"; "StopIteration"; "SyntaxError"; "SyntaxWarning";
   "SystemError"; "SystemExit"; "TabError"; "TimeoutError"; "True";
   "TypeError"; "UnboundLocalError"; "UnicodeDecodeError";
   "UnicodeEncodeError"; "UnicodeError"; "UnicodeTranslateError";
   "UnicodeWarning"; "UserWarning"; "ValueError"; "Warning";
   "ZeroDivisionError"; "__build_class__"; "__debug__"; "__doc__";
   "__import__"; "__loader__"; "__name__"; "__package__"; "__spec__";
   "abs"; "aiter"; "all"; "anext"; "any"; "ascii"; "bin"; "bool";
   "breakpoint"; "bytearray"; "bytes"; "callable"; "chr"; "classmethod";
   "compile"; "complex"; "copyright"; "credits"; "delattr"; "dict"; "dir";
   "divmod"; "enumerate"; "eval"; "exec"; "exit"; "filter"; "float";
   "format"; "frozenset"; "getattr"; "globals"; "hasattr"; "hash"; "help";
   "hex"; "id"; "input"; "int"; "isinstance"; "issubclass"; "iter"; "len";
   "license"; "list"; "locals"; "map"; "max"; "memoryview"; "min"; "next";
   "object"; "oct"; "open"; "ord"; "pow"; "print"; "property"; "quit";
   "range"; "repr"; "reversed"; "round"; "set"; "setattr"; "slice";
   "sorted"; "staticmethod"; "str"; "sum"; "super"; "tuple"; "type"; "vars";
   "zip"]%string.

(** The object a builtin name stands for.  Seven of the names are data:
    the two booleans and [__debug__] (a [bool] is an [int], [True] is 1,
    and nothing modelled here tells them apart; [__debug__] is [True]
    unless the interpreter runs with [-O]), [None], and the three strings
    among the attributes of the [builtins] module.  The others are
    functions, classes and singletons, kept by name. *)
Definition builtin_object (name : string) : pyobj :=
  if String.eqb name "True" then PyInt 1
  else if String.eqb name "False" then PyInt 0
  else if String.eqb name "__debug__" then PyInt 1
  else if String.eqb name "None" then PyNone
  else if String.eqb name "__name__" then PyStr (lit "builtins")
  else if String.eqb name "__package__" then PyStr []
  else if String.eqb name "__doc__" then
    PyStr (lit "Built-in functions, exceptions, and other objects."
           ++ [10; 10]
           ++ lit "Noteworthy: None is the `nil' object; Ellipsis represents `...' in slices.")
  else PyBuiltinName name.

(** [LOAD_GLOBAL name]. *)
Definition load_global (name : string) : Py pyobj := fun w =>
  match globals w !! name with
  | Some v => (Ok v, w)
  | None =>
      if bool_decide (name ∈ builtin_names)
      then (Ok (builtin_object name), w)
      else (Raise (NameError name), w)
  end.

(** The attributes of the library modules that the source reads. *)
Definition module_attr (m : stdmodule) (attr : string) : option pyobj :=
  match m with
  | mod_hashlib =>
      if String.eqb attr "sha256" then Some (PyCallable fn_sha256) else None
  | mod_random =>
      if String.eqb attr "choices" then Some (PyCallable fn_choices) else None
  | mod_string =>
      if String.eqb attr "ascii_lowercase"
      then Some (PyStr (lit "abcdefghijklmnopqrstuvwxyz"))
      else if String.eqb attr "digits" then Some (PyStr (lit "0123456789"))
      else None
  end.

(** [obj.attr] for the module attributes above. *)
Definition getattr (obj : pyobj) (attr : string) : Py pyobj :=
  match obj with
  | PyModule m =>
      match module_attr m attr with
      | Some v => mret v
      | None => raise (AttributeError attr)
      end
  | _ => raise (AttributeError attr)
  end.

(** [x + y] on the sequence and number types; no other object modelled
    defines an addition, direct or reflected. *)
Definition binary_add (x y : pyobj) : Py pyobj :=
  match x, y with
  | PyStr a, PyStr b => mret (PyStr (a ++ b))
  | PyBytes a, PyBytes b => mret (PyBytes (a ++ b))
  | PyList a, PyList b => mret (PyList (a ++ b))
  | PyInt a, PyInt b => mret (PyInt (a + b))
  | _, _ => raise TypeError
  end.

(** [obj.encode()]: the strict UTF-8 codec raises at the first surrogate. *)
Definition method_encode (obj : pyobj) : Py pyobj :=
  match obj with
  | PyStr s =>
      match first_surrogate 0 s with
      | Some pos => raise (UnicodeEncodeError pos)
      | None => mret (PyBytes (utf8 s))
      end
  | _ => raise (AttributeError "encode")
  end.

(** [obj.hexdigest()] of a SHA-256 hash object. *)
Definition method_hexdigest (obj : pyobj) : Py pyobj :=
  match obj with
  | PyHash data => mret (PyStr (hexlify (SHA256.digest data)))
  | _ => raise (AttributeError "hexdigest")
  end.

(** The items of a sequence, as [len] and indexing see them. *)
Definition sequence_items (obj : pyobj) : option (list pyobj) :=
  match obj with
  | PyStr s => Some ((fun c : N => PyStr [c]) <$> s)
  | PyBytes b => Some ((fun x => PyInt (Z.of_N x)) <$> b)
  | PyList l => Some l
  | _ => None
  end.

(** [random.random()]: the next value of the generator. *)
Definition rng_random : Py N := fun w =>
  (Ok (rng_tape w (rng_pos w) mod 2 ^ 53),
   mkWorld (globals w) (rng_tape w) (S (rng_pos w))).

(** The product of two doubles, as the integer [p] of its exact value
    [p / 2^53]: rounded to 53 significant bits, to nearest, ties to even. *)
Definition round53 (p : N) : N :=
  let shift := N.size p - 53 in
  if shift =? 0 then p
  else
    let q := N.shiftr p shift in
    let rem := p mod 2 ^ shift in
    let half := 2 ^ (shift - 1) in
    let q' := if (half <? rem) || ((rem =? half) && N.odd q) then q + 1 else q in
    N.shiftl q' shift.

(** [floor(random() * n)], where [random()] is [r / 2^53] and [n] the
    length of the population as a double. *)
Definition choice_index (r n : N) : N := round53 (r * n) / 2 ^ 53.

(** [population[floor(random() * n)]], [count] times. *)
Fixpoint draw (count : nat) (population : list pyobj) : Py (list pyobj) :=
  match count with
  | O => mret []
  | S count' =>
      r ← rng_random;
      match population !! N.to_nat (choice_index r (N.of_nat (length population))) with
      | None => raise IndexError
      | Some x => rest ← draw count' population; mret (x :: rest)
      end
  end.

(** The bounds of a C [ssize_t] (a 64-bit build). *)
Definition PY_SSIZE_T_MAX : Z := 2 ^ 63 - 1.
Definition PY_SSIZE_T_MIN : Z := - 2 ^ 63.

(** The count [itertools.repeat(None, k)] takes: an [int] that fits a
    [ssize_t]. *)
Definition repeat_count (k : pyobj) : outcome Z :=
  match k with
  | PyInt z =>
      if (PY_SSIZE_T_MIN <=? z)%Z && (z <=? PY_SSIZE_T_MAX)%Z
      then Ok z
      else Raise OverflowError
  | _ => Raise TypeError
  end.

(** [random.choices(population, k=k)] without weights: the length of the
    population is taken first, then the count is converted, then [k] items
    are drawn; a negative [k] draws nothing. *)
Definition random_choices (population k : pyobj) : Py pyobj :=
  match sequence_items population with
  | None => raise TypeError
  | Some items =>
      match repeat_count k with
      | Ok z => picks ← draw (Z.to_nat z) items; mret (PyList picks)
      | Raise e => raise e
      end
  end.

(** Calls of the library callables. *)
Definition call_choices (f population k : pyobj) : Py pyobj :=
  match f with
  | PyCallable fn_choices => random_choices population k
  | _ => raise TypeError
  end.

Definition call_sha256 (f data : pyobj) : Py pyobj :=
  match f with
  | PyCallable fn_sha256 =>
      match data with
      | PyBytes b => mret (PyHash b)
      | _ => raise TypeError
      end
  | _ => raise TypeError
  end.

(** [sep.join(iterable)]: every item has to be a [str]. *)
Fixpoint join_items (sep : list N) (items : list pyobj) : option (list N) :=
  match items with
  | [] => Some []
  | PyStr s :: rest =>
      match rest with
      | [] => Some s
      | _ :: _ => (fun r => s ++ sep ++ r) <$> join_items sep rest
      end
  | _ :: _ => None
  end.

Definition str_join (sep : list N) (iterable : pyobj) : Py pyobj :=
  match sequence_items iterable with
  | None => raise TypeError
  | Some items =>
      match join_items sep items with
      | Some s => mret (PyStr s)
      | None => raise TypeError
      end
  end.

(** ** The module

    The names the file binds: [import hashlib] is the only import, and the
    three [def]s bind the function names.  (The attributes every module
    has, [__name__] and the like, are left out: the bodies read none.) *)
Definition utils_globals : gmap string pyobj :=
  <["hashlib" := PyModule mod_hashlib]>
  (<["make_id" := PyFunction "make_id"]>
  (<["hash_weak_password" := PyFunction "hash_weak_password"]>
  (<["remove_unwanted_characters" := PyFunction "remove_unwanted_characters"]>
   ∅))).

(** [def make_id(k=8) -> str:
       return ''.join(random.choices(string.ascii_lowercase + string.digits, k=k))]

    The names are resolved in the order of evaluation: the callee
    [random.choices] before its arguments. *)
Definition make_id (k : pyobj) : Py pyobj :=
  random ← load_global "random";
  choices ← getattr random "choices";
  string_l ← load_global "string";
  lowercase ← getattr string_l "ascii_lowercase";
  string_r ← load_global "string";
  digits ← getattr string_r "digits";
  population ← binary_add lowercase digits;
  picked ← call_choices choices population k;
  str_join (lit "") picked.

(** The default argument of [make_id]. *)
Definition make_id_default : Py pyobj := make_id (PyInt 8).

(** [def hash_weak_password(s) -> str:
       return hashlib.sha256(("salty$" + s).encode()).hexdigest()] *)
Definition hash_weak_password (s : pyobj) : Py pyobj :=
  hashlib ← load_global "hashlib";
  sha256 ← getattr hashlib "sha256";
  salted ← binary_add (PyStr (lit "salty$")) s;
  data ← method_encode salted;
  h ← call_sha256 sha256 data;
  method_hexdigest h.

(** The module as the file defines it, with a generator [tape], and the
    same module once [random] and [string] have been bound in it. *)
Definition utils_world (tape : nat → N) : World := mkWorld utils_globals tape 0.

Definition with_imports (w : World) : World :=
  mkWorld (<["random" := PyModule mod_random]>
           (<["string" := PyModule mod_string]> (globals w)))
          (rng_tape w) (rng_pos w).

(** The state after [n] more values have been drawn from the generator. *)
Definition advance (n : nat) (w : World) : World :=
  mkWorld (globals w) (rng_tape w) (n + rng_pos w).

(** The alphabet of identifiers: lowercase letters and digits. *)
Definition alphabet : list N :=
  lit "abcdefghijklmnopqrstuvwxyz" ++ lit "0123456789".

Definition is_id_char (c : N) : Prop :=
  (97 <= c ∧ c <= 122) ∨ (48 <= c ∧ c <= 57).

(** A string as the sequence of its one-character strings. *)
Definition chars (s : list N) : list pyobj := (fun c => PyStr [c]) <$> s.

(** The character a draw picks from the alphabet, when the generator is
    about to return its [i]-th next value, and the identifier [n] draws in
    a row spell. *)
Definition drawn_char (w : World) (i : nat) : N :=
  nth (N.to_nat (choice_index (rng_tape w (i + rng_pos w) mod 2 ^ 53) 36))
      alphabet 0.

Definition drawn_id (w : World) (n : nat) : list N :=
  drawn_char w <$> seq 0 n.

(** What a call may do to the state: [w'] is [w] with at most [n] more
    values drawn from the generator, and nothing else changed. *)
Definition draws_at_most (n : nat) (w w' : World) : Prop :=
  globals w' = globals w
  ∧ rng_tape w' = rng_tape w
  ∧ (rng_pos w ≤ rng_pos w' ≤ rng_pos w + n)%nat.

Definition consumes {A : Type} (m : Py A) (n : nat) : Prop :=
  ∀ w, draws_at_most n w (snd (m w)).

(** The number of draws a length argument asks for. *)
Definition draws_asked (k : pyobj) : nat :=
  match repeat_count k with
  | Ok z => Z.to_nat z
  | Raise _ => 0%nat
  end.

(** The plain data values: [None], an [int], a [str], [bytes], a list. *)
Definition is_data (v : pyobj) : bool :=
  match v with
  | PyNone | PyInt _ | PyStr _ | PyBytes _ | PyList _ => true
  | _ => false
  end.

(** What a global name may be bound to for the body to be followed to its
    end: nothing, or one of the library modules. *)
Definition unbound_or_module (o : option pyobj) : Prop :=
  match o with
  | None => True
  | Some (PyModule _) => True
  | Some _ => False
  end.

Definition is_str (v : pyobj) : bool :=
  match v with
  | PyStr _ => true
  | _ => false
  end.

Definition is_int (v : pyobj) : bool :=
  match v with
  | PyInt _ => true
  | _ => false
  end.

(** * Properties *)

(** ** The sanitizer *)

Section Sanitizer.

Implicit Types (s t : list N) (c x : N).

Lemma lit_lt : lit "<" = [LT_SIGN].
Proof. reflexivity. Qed.

(** Replacing a one-character pattern by nothing is deleting it. *)
Lemma replace_scan_single c s :
  replace_scan [c] [] 0 s = delete_char c s.
Proof.
  induction s as [|x t IH]; [done|].
  cbn [replace_scan is_prefix delete_char length Nat.pred].
  rewrite andb_true_r, (N.eqb_sym c x).
  destruct (x =? c); cbn; by rewrite IH.
Qed.

Lemma remove_unwanted_characters_delete s :
  remove_unwanted_characters s = delete_char LT_SIGN s.
Proof.
  unfold remove_unwanted_characters, str_replace.
  rewrite lit_lt. apply replace_scan_single.
Qed.

Lemma delete_char_cons_eq c s : delete_char c (c :: s) = delete_char c s.
Proof. cbn. by rewrite N.eqb_refl. Qed.

Lemma delete_char_cons_ne c x s :
  x ≠ c → delete_char c (x :: s) = x :: delete_char c s.
Proof. intros Hne. cbn. by destruct (N.eqb_spec x c). Qed.

Lemma delete_char_app c s t :
  delete_char c (s ++ t) = delete_char c s ++ delete_char c t.
Proof.
  induction s as [|x s IH]; [done|].
  cbn. destruct (x =? c); cbn; by rewrite IH.
Qed.

Lemma delete_char_elem c x s : x ∈ delete_char c s ↔ x ∈ s ∧ x ≠ c.
Proof.
  induction s as [|y s IH]; cbn.
  - rewrite elem_of_nil. tauto.
  - destruct (N.eqb_spec y c) as [->|Hne].
    + rewrite IH, elem_of_cons. tauto.
    + rewrite !elem_of_cons, IH. intuition congruence.
Qed.

Lemma delete_char_absent c s : c ∉ s → delete_char c s = s.
Proof.
  induction s as [|x s IH]; [done|].
  rewrite not_elem_of_cons. intros [Hne Hs].
  rewrite delete_char_cons_ne by done. by rewrite IH.
Qed.

Lemma delete_char_count c x s :
  x ≠ c → str_count x (delete_char c s) = str_count x s.
Proof.
  intros Hne. induction s as [|y s IH]; [done|].
  cbn. destruct (N.eqb_spec y c) as [->|Hyc]; cbn.
  - destruct (N.eqb_spec c x); [congruence | done].
  - by rewrite IH.
Qed.

Lemma delete_char_length c s :
  (length (delete_char c s) + str_count c s = length s)%nat.
Proof.
  induction s as [|x s IH]; [done|].
  cbn. destruct (x =? c); cbn; lia.
Qed.

Lemma str_count_absent c s : str_count c s = 0%nat ↔ c ∉ s.
Proof.
  induction s as [|x s IH]; cbn.
  - rewrite elem_of_nil. tauto.
  - rewrite not_elem_of_cons.
    destruct (N.eqb_spec x c) as [->|Hne]; [intuition congruence|].
    rewrite IH. intuition congruence.
Qed.

End Sanitizer.

(** C4. For every string [s], [remove_unwanted_characters s] is [s] with
    every ['<'] deleted and the other characters kept in their order: it
    is the deletion the specification describes, which drops a ['<'],
    keeps any other character in place and distributes over
    concatenation; the result contains no ['<'], every other character
    occurs as often as in [s], and the empty string maps to itself. *)
Theorem remove_unwanted_characters_deletes_lt (s : list N) :
  remove_unwanted_characters s = delete_char LT_SIGN s
  ∧ remove_unwanted_characters (LT_SIGN :: s) = remove_unwanted_characters s
  ∧ (∀ c, c ≠ LT_SIGN →
       remove_unwanted_characters (c :: s) = c :: remove_unwanted_characters s)
  ∧ (∀ t, remove_unwanted_characters (s ++ t)
          = remove_unwanted_characters s ++ remove_unwanted_characters t)
  ∧ (LT_SIGN ∉ remove_unwanted_characters s)
  ∧ (∀ c, c ≠ LT_SIGN →
       str_count c (remove_unwanted_characters s) = str_count c s)
  ∧ remove_unwanted_characters (lit "") = lit "".
Proof.
  split_and!.
  - apply remove_unwanted_characters_delete.
  - by rewrite !remove_unwanted_characters_delete, delete_char_cons_eq.
  - intros c Hc.
    by rewrite !remove_unwanted_characters_delete, delete_char_cons_ne.
  - intros t. by rewrite !remove_unwanted_characters_delete, delete_char_app.
  - rewrite remove_unwanted_characters_delete, delete_char_elem. tauto.
  - intros c Hc. rewrite remove_unwanted_characters_delete.
    by apply delete_char_count.
  - reflexivity.
Qed.

(** C5. The sanitizer is idempotent. *)
Theorem remove_unwanted_characters_idempotent (s : list N) :
  remove_unwanted_characters (remove_unwanted_characters s)
  = remove_unwanted_characters s.
Proof.
  rewrite !remove_unwanted_characters_delete.
  apply delete_char_absent. rewrite delete_char_elem. tauto.
Qed.

(** C6. The length of the sanitized string is the length of the input
    minus the number of ['<'] in it (the count never exceeds the length, so
    the subtraction is exact). *)
Theorem remove_unwanted_characters_length (s : list N) :
  length (remove_unwanted_characters s)
  = (length s - str_count LT_SIGN s)%nat
  ∧ (str_count LT_SIGN s ≤ length s)%nat.
Proof.
  rewrite remove_unwanted_characters_delete.
  pose proof (delete_char_length LT_SIGN s). lia.
Qed.

(** C10. The sanitizer is the identity exactly on the strings without
    ['<']. *)
Theorem remove_unwanted_characters_fixpoint (s : list N) :
  remove_unwanted_characters s = s ↔ LT_SIGN ∉ s.
Proof.
  rewrite remove_unwanted_characters_delete. split.
  - intros Heq. apply str_count_absent.
    pose proof (delete_char_length LT_SIGN s) as Hlen.
    rewrite Heq in Hlen. lia.
  - apply delete_char_absent.
Qed.

(** ** Running a body: the monad's equations *)

Section Running.

Context {A B : Type}.
Implicit Types (m : Py A) (f : A → Py B) (w : World).

Lemma bind_ok m f w a w' : m w = (Ok a, w') → (m ≫= f) w = f a w'.
Proof. intros H. unfold mbind, Py_bind. by rewrite H. Qed.

Lemma bind_raise m f w e w' :
  m w = (Raise e, w') → (m ≫= f) w = (Raise e, w').
Proof. intros H. unfold mbind, Py_bind. by rewrite H. Qed.

End Running.

Lemma load_global_bound name v w :
  globals w !! name = Some v → load_global name w = (Ok v, w).
Proof. intros H. unfold load_global. by rewrite H. Qed.

Lemma load_global_unbound name w :
  globals w !! name = None → name ∉ builtin_names →
  load_global name w = (Raise (NameError name), w).
Proof.
  intros H Hb. unfold load_global. rewrite H.
  by rewrite bool_decide_eq_false_2.
Qed.

(** ** The password digest *)

Section Digest.

Implicit Types (s : list N) (w : World).

Lemma first_surrogate_app pos s t :
  first_surrogate pos (s ++ t)
  = match first_surrogate pos s with
    | Some i => Some i
    | None => first_surrogate (pos + length s) t
    end.
Proof.
  revert pos. induction s as [|c s IH]; intros pos; cbn.
  - by rewrite Nat.add_0_r.
  - destruct (is_surrogate c); [done|].
    rewrite IH. by rewrite Nat.add_succ_comm.
Qed.

Lemma first_surrogate_shift pos s :
  first_surrogate pos s = (fun i => (pos + i)%nat) <$> first_surrogate 0 s.
Proof.
  revert pos. induction s as [|c s IH]; intros pos; cbn; [done|].
  destruct (is_surrogate c); cbn.
  - f_equal. lia.
  - rewrite (IH (S pos)), (IH 1%nat).
    destruct (first_surrogate 0 s); cbn; [f_equal; lia | done].
Qed.

Lemma first_surrogate_scalar pos s :
  Forall is_scalar s → first_surrogate pos s = None.
Proof.
  intros Hs. revert pos.
  induction Hs as [|c s [_ Hc] _ IH]; intros pos; cbn; [done|].
  by rewrite Hc.
Qed.

(** The encoding step of the body, on the salted string. *)
Lemma encode_salted s w :
  Forall is_scalar s →
  method_encode (PyStr (lit "salty$" ++ s)) w
  = (Ok (PyBytes (utf8 (lit "salty$" ++ s))), w).
Proof.
  intros Hs. unfold method_encode.
  rewrite first_surrogate_app. cbn [first_surrogate].
  change (first_surrogate 0 (lit "salty$")) with (@None nat). cbn match.
  by rewrite first_surrogate_scalar.
Qed.

(** The body on a string of scalar values, step by step. *)
Lemma hash_weak_password_run s w :
  globals w !! "hashlib"%string = Some (PyModule mod_hashlib) →
  Forall is_scalar s →
  hash_weak_password (PyStr s) w = (Ok (PyStr (salted_sha256_hex s)), w).
Proof.
  intros Hg Hs. unfold hash_weak_password.
  rewrite (bind_ok _ _ _ _ _ (load_global_bound _ _ _ Hg)).
  cbn [getattr module_attr String.eqb Ascii.eqb Bool.eqb].
  erewrite bind_ok by reflexivity.
  erewrite bind_ok by reflexivity.
  erewrite bind_ok by (by apply encode_salted).
  erewrite bind_ok by reflexivity.
  reflexivity.
Qed.

(** A lone surrogate makes the body raise, at its index in the salted
    string. *)
Lemma hash_weak_password_surrogate s w i :
  globals w !! "hashlib"%string = Some (PyModule mod_hashlib) →
  first_surrogate 0 s = Some i →
  hash_weak_password (PyStr s) w = (Raise (UnicodeEncodeError (6 + i)), w).
Proof.
  intros Hg Hi. unfold hash_weak_password.
  rewrite (bind_ok _ _ _ _ _ (load_global_bound _ _ _ Hg)).
  cbn [getattr module_attr String.eqb Ascii.eqb Bool.eqb].
  erewrite bind_ok by reflexivity.
  erewrite bind_ok by reflexivity.
  erewrite bind_raise; [reflexivity|].
  unfold method_encode. rewrite first_surrogate_app.
  change (first_surrogate 0 (lit "salty$")) with (@None nat). cbn match.
  change (0 + length (lit "salty$"))%nat with 6%nat.
  by rewrite first_surrogate_shift, Hi.
Qed.

End Digest.

(** ** The shape of a digest *)

Section HexShape.

Lemma be_bytes_length n x : length (SHA256.be_bytes n x) = n.
Proof.
  unfold SHA256.be_bytes. by rewrite length_map, length_rev, length_seq.
Qed.

Lemma be_bytes_range n x : Forall (fun b => b < 256) (SHA256.be_bytes n x).
Proof.
  unfold SHA256.be_bytes. apply Forall_map, Forall_forall. intros i _. cbn beta.
  change 0xFF with (N.ones 8). rewrite N.land_ones.
  by apply N.mod_lt.
Qed.

Lemma digest_length msg : length (SHA256.digest msg) = 32%nat.
Proof.
  unfold SHA256.digest. cbn zeta.
  generalize (fold_left SHA256.compress
                (SHA256.blocks (length (SHA256.pad msg) / 64) (SHA256.pad msg))
                SHA256.H0).
  intros r. unfold SHA256.regs_words. cbn [flat_map].
  by rewrite !length_app, !be_bytes_length.
Qed.

Lemma digest_range msg : Forall (fun b => b < 256) (SHA256.digest msg).
Proof.
  unfold SHA256.digest. cbn zeta. apply Forall_flat_map, Forall_forall.
  intros x _. apply be_bytes_range.
Qed.

Lemma hex_digit_lower n : n < 16 → is_lower_hex (hex_digit n).
Proof.
  intros Hn. unfold is_lower_hex, hex_digit.
  destruct (N.ltb_spec n 10); lia.
Qed.

Lemma hexlify_length bs : length (hexlify bs) = (2 * length bs)%nat.
Proof.
  induction bs as [|b bs IH]; [done|].
  unfold hexlify in *. cbn [flat_map hex_byte length app]. rewrite IH. lia.
Qed.

Lemma hexlify_lower bs :
  Forall (fun b => b < 256) bs → Forall is_lower_hex (hexlify bs).
Proof.
  intros Hbs. unfold hexlify. apply Forall_flat_map.
  eapply Forall_impl; [exact Hbs|]. intros b Hb. cbn beta in *.
  unfold hex_byte.
  constructor; [|constructor; [|constructor]]; apply hex_digit_lower.
  - apply N.Div0.div_lt_upper_bound. lia.
  - by apply N.mod_lt.
Qed.

Lemma salted_sha256_hex_shape s :
  length (salted_sha256_hex s) = 64%nat
  ∧ Forall is_lower_hex (salted_sha256_hex s).
Proof.
  unfold salted_sha256_hex. split.
  - by rewrite hexlify_length, digest_length.
  - apply hexlify_lower, digest_range.
Qed.

End HexShape.

(** ** The library model against published values *)

(** FIPS 180-4, section 4.2.2 and 5.3.3: the first and last round
    constants and the initial hash value. *)
Example sha256_constants :
  SHA256.K !! 0%nat = Some 0x428a2f98
  ∧ SHA256.K !! 63%nat = Some 0xc67178f2
  ∧ length SHA256.K = 64%nat
  ∧ SHA256.regs_words SHA256.H0
    = [0x6a09e667; 0xbb67ae85; 0x3c6ef372; 0xa54ff53a;
       0x510e527f; 0x9b05688c; 0x1f83d9ab; 0x5be0cd19].
Proof. by vm_compute. Qed.

(** The digests of the empty message and of ["abc"], and of a message of
    two blocks. *)
Example sha256_empty :
  hexlify (SHA256.digest [])
  = lit "e3b0c44298fc1c149afbf4c8996fb92427ae41e4649b934ca495991b7852b855".
Proof. by vm_compute. Qed.

Example sha256_abc :
  hexlify (SHA256.digest (lit "abc"))
  = lit "ba7816bf8f01cfea414140de5dae2223b00361a396177a9cb410ff61f20015ad".
Proof. by vm_compute. Qed.

Example sha256_two_blocks :
  hexlify (SHA256.digest (repeat 97 70))
  = lit "6bd5e5034855a11241f0dee8fc72850ffd9955b28347a86428b5fa19119f6ad0".
Proof. by vm_compute. Qed.

(** UTF-8 of one, two, three and four bytes: ["h"], U+00E9, U+20AC and
    U+1F600. *)
Example utf8_samples :
  utf8 [0x68; 0xE9; 0x20AC; 0x1F600]
  = [0x68; 0xC3; 0xA9; 0xE2; 0x82; 0xAC; 0xF0; 0x9F; 0x98; 0x80].
Proof. by vm_compute. Qed.

(** [str.replace]: matches do not overlap, the empty pattern matches
    everywhere, and a pattern that does not occur changes nothing. *)
Example str_replace_samples :
  str_replace (lit "aaa") (lit "aa") (lit "b") = lit "ba"
  ∧ str_replace (lit "abc") (lit "") (lit "-") = lit "-a-b-c-"
  ∧ str_replace (lit "a<b<<c") (lit "<<") (lit "&lt;") = lit "a<b&lt;c"
  ∧ str_replace (lit "abc") (lit "x") (lit "y") = lit "abc".
Proof. by vm_compute. Qed.

(** The boundaries between the encoded lengths, and around the
    surrogates. *)
Example utf8_boundaries :
  utf8_char 0x7F = [0x7F]
  ∧ utf8_char 0x80 = [0xC2; 0x80]
  ∧ utf8_char 0x7FF = [0xDF; 0xBF]
  ∧ utf8_char 0x800 = [0xE0; 0xA0; 0x80]
  ∧ utf8_char 0xD7FF = [0xED; 0x9F; 0xBF]
  ∧ utf8_char 0xE000 = [0xEE; 0x80; 0x80]
  ∧ utf8_char 0xFFFF = [0xEF; 0xBF; 0xBF]
  ∧ utf8_char 0x10000 = [0xF0; 0x90; 0x80; 0x80]
  ∧ utf8_char 0x10FFFF = [0xF4; 0x8F; 0xBF; 0xBF].
Proof. by vm_compute. Qed.

(** [floor(random() * 36.0)] at the ends of the range, and at a value
    where the rounding of the product matters: the exact product is below
    8, the double is 8. *)
Example choice_index_samples :
  choice_index 0 36 = 0
  ∧ choice_index (2 ^ 53 - 1) 36 = 35
  ∧ choice_index 4503599627370496 36 = 18
  ∧ choice_index 3338479646493575 36 = 13
  ∧ choice_index 2001599834386887 36 = 8
  ∧ 2001599834386887 * 36 / 2 ^ 53 = 7.
Proof. by vm_compute. Qed.

(** [random.choices] and its count: the length of the population is
    taken before the count is converted; a count of [2^63] or more, or
    below [-2^63], does not fit; [-2^63] fits and draws nothing. *)
Example random_choices_count_samples :
  fst (random_choices (PyStr alphabet) (PyInt (2 ^ 63)) (utils_world (fun _ => 0)))
  = Raise OverflowError
  ∧ fst (random_choices (PyStr alphabet) (PyInt (- 2 ^ 63 - 1))
           (utils_world (fun _ => 0)))
    = Raise OverflowError
  ∧ fst (random_choices (PyStr alphabet) (PyInt (- 2 ^ 63))
           (utils_world (fun _ => 0)))
    = Ok (PyList [])
  ∧ fst (random_choices (PyInt 5) (PyInt (2 ^ 63)) (utils_world (fun _ => 0)))
    = Raise TypeError
  ∧ fst (random_choices (PyStr []) (PyInt 1) (utils_world (fun _ => 0)))
    = Raise IndexError.
Proof. by vm_compute. Qed.

(** ** The password digest: what the specification states *)

(** C1, as the code has it.  In a module where [hashlib] is the imported
    library, for every string [s] of Unicode scalar values (no lone
    surrogate), [hash_weak_password s] returns the SHA-256 digest of the
    UTF-8 encoding of ["salty$"] followed by [s], in lowercase hexadecimal,
    and changes nothing; in particular it maps ["password"] to the digest
    of [salty$password] and the empty string to the digest of [salty$]. *)
Theorem hash_weak_password_salted_sha256 (w : World) (s : list N) :
  globals w !! "hashlib"%string = Some (PyModule mod_hashlib) →
  Forall is_scalar s →
  hash_weak_password (PyStr s) w = (Ok (PyStr (salted_sha256_hex s)), w)
  ∧ hash_weak_password (PyStr (lit "password")) w
    = (Ok (PyStr (lit
         "4c7607a637d8c0e9f144ed9c159f71416cd9fc83457a70a475556f9a1b6ee3e0")),
       w)
  ∧ hash_weak_password (PyStr (lit "")) w
    = (Ok (PyStr (lit
         "197eebc41e268d53e071432f068c3365be4fd445bb08311cb6fc2495ac58bf92")),
       w).
Proof.
  intros Hg Hs. split_and!.
  - by apply hash_weak_password_run.
  - rewrite hash_weak_password_run; [|done|].
    + vm_compute. reflexivity.
    + repeat (constructor; [by split|]). constructor.
  - rewrite hash_weak_password_run; [|done|constructor].
    vm_compute. reflexivity.
Qed.

Lemma hash_weak_password_salted_sha256_witness :
  hash_weak_password (PyStr [0x68; 0xE9; 0x20AC; 0x1F600])
    (utils_world (fun _ => 0))
  = (Ok (PyStr (lit
       "948ce753f9472f3fe4347ea3c967243e86ea33e22a5d18f19f148d52bf169959")),
     utils_world (fun _ => 0)).
Proof.
  refine (eq_trans
    (proj1 (hash_weak_password_salted_sha256 (utils_world (fun _ => 0))
              [0x68; 0xE9; 0x20AC; 0x1F600] _ _)) _).
  - reflexivity.
  - repeat (constructor; [split; reflexivity|]). constructor.
  - vm_compute. reflexivity.
Defined.

(** C1 as stated fails on a string with a lone surrogate, which is a
    Python [str]: the strict codec raises and no digest is returned. *)
Lemma hash_weak_password_lone_surrogate :
  hash_weak_password (PyStr [0xD800]) (utils_world (fun _ => 0))
  = (Raise (UnicodeEncodeError 6), utils_world (fun _ => 0))
  ∧ fst (hash_weak_password (PyStr [0xD800]) (utils_world (fun _ => 0)))
    ≠ Ok (PyStr (salted_sha256_hex [0xD800])).
Proof. split; [reflexivity | discriminate]. Qed.

(** C2, as the code has it.  In a module where [hashlib] is the imported
    library, for every string [s] of Unicode scalar values the call returns
    a string of exactly 64 characters, each a lowercase hexadecimal digit
    ([0-9] or [a-f]). *)
Theorem hash_weak_password_hex64 (w : World) (s : list N) :
  globals w !! "hashlib"%string = Some (PyModule mod_hashlib) →
  Forall is_scalar s →
  ∃ h, hash_weak_password (PyStr s) w = (Ok (PyStr h), w)
       ∧ length h = 64%nat
       ∧ Forall is_lower_hex h.
Proof.
  intros Hg Hs. exists (salted_sha256_hex s).
  split; [by apply hash_weak_password_run | apply salted_sha256_hex_shape].
Qed.

Lemma hash_weak_password_hex64_witness :
  ∃ h, hash_weak_password (PyStr (lit "hunter2")) (utils_world (fun _ => 0))
       = (Ok (PyStr h), utils_world (fun _ => 0))
       ∧ length h = 64%nat
       ∧ Forall is_lower_hex h.
Proof.
  apply (hash_weak_password_hex64 (utils_world (fun _ => 0)) (lit "hunter2")).
  - reflexivity.
  - repeat (constructor; [split; reflexivity|]). constructor.
Defined.

(** C2 as stated fails on a string with a lone surrogate: the call has no
    result at all. *)
Lemma hash_weak_password_no_result :
  ¬ ∃ h w', hash_weak_password (PyStr (lit "abc" ++ [0xDFFF]))
              (utils_world (fun _ => 0))
            = (Ok (PyStr h), w').
Proof. intros (h & w' & H). discriminate H. Qed.

(** C3. [hash_weak_password] is deterministic: the outcome of a call (a
    string or an exception) depends on the argument and on what the name
    [hashlib] is bound to, and on nothing else; two calls with the same
    argument agree whatever the state of the random generator and the rest
    of the namespace, and a call leaves the state as it found it. *)
Theorem hash_weak_password_deterministic (s : pyobj) (w1 w2 : World) :
  globals w1 !! "hashlib"%string = globals w2 !! "hashlib"%string →
  fst (hash_weak_password s w1) = fst (hash_weak_password s w2)
  ∧ snd (hash_weak_password s w1) = w1.
Proof.
  intros H. unfold hash_weak_password, mbind, Py_bind, load_global.
  rewrite <- H. destruct (globals w1 !! "hashlib"%string) as [v|]; cbn.
  - unfold getattr. destruct v; cbn; try done.
    destruct (module_attr m "sha256") as [f|]; cbn; [|done].
    unfold binary_add. destruct s; cbn; try done.
    unfold method_encode, mret, Py_ret, raise.
    destruct (first_surrogate _ _); cbn; [done|].
    unfold call_sha256. destruct f; cbn; try done. destruct f; cbn; done.
  - done.
Qed.

Lemma hash_weak_password_deterministic_witness :
  fst (hash_weak_password (PyStr (lit "password"))
         (utils_world (fun _ => 0)))
  = fst (hash_weak_password (PyStr (lit "password"))
           (mkWorld (<["secret" := PyInt 7]> utils_globals)
                    (fun i => N.of_nat i * 977) 12))
  ∧ snd (hash_weak_password (PyStr (lit "password"))
           (utils_world (fun _ => 0)))
    = utils_world (fun _ => 0).
Proof.
  apply (hash_weak_password_deterministic (PyStr (lit "password"))
           (utils_world (fun _ => 0))
           (mkWorld (<["secret" := PyInt 7]> utils_globals)
                    (fun i => N.of_nat i * 977) 12)).
  reflexivity.
Defined.

(** ** The identifier generator *)

Section Identifier.

Implicit Types (w : World) (k : Z) (cs : list N).

Lemma alphabet_id_chars : Forall is_id_char alphabet.
Proof.
  unfold alphabet, is_id_char. cbn.
  repeat (constructor; [lia|]). constructor.
Qed.

Lemma advance_0 w : advance 0 w = w.
Proof. by destruct w. Qed.

Lemma advance_S n w :
  advance n (mkWorld (globals w) (rng_tape w) (S (rng_pos w)))
  = advance (S n) w.
Proof. unfold advance. cbn. f_equal. lia. Qed.

(** Rounding to nearest moves a value by at most half a unit of the last
    place kept. *)
Lemma round_up_near p s :
  1 <= s →
  (if (2 ^ (s - 1) <? p mod 2 ^ s)
      || ((p mod 2 ^ s =? 2 ^ (s - 1)) && N.odd (p / 2 ^ s))
   then p / 2 ^ s + 1 else p / 2 ^ s) * 2 ^ s
  <= p + 2 ^ (s - 1).
Proof.
  intros Hs.
  assert (H2 : 2 ^ s = 2 * 2 ^ (s - 1)).
  { rewrite <- N.pow_succ_r'. f_equal. lia. }
  pose proof (N.Div0.div_mod p (2 ^ s)) as Hdm.
  set (q := p / 2 ^ s) in *. set (rem := p mod 2 ^ s) in *.
  set (half := 2 ^ (s - 1)) in *.
  destruct (_ || _) eqn:Hup; [|nia].
  apply orb_true_iff in Hup
    as [Hup%N.ltb_lt | [Hup%N.eqb_eq _]%andb_true_iff]; nia.
Qed.

(** Rounding to 53 bits moves a product of fewer than 59 bits by at most
    32. *)
Lemma round53_near p : p < 2 ^ 59 → round53 p <= p + 32.
Proof.
  intros Hp. unfold round53.
  assert (Hs : N.size p - 53 <= 6).
  { pose proof (N.size_le p) as Hle.
    destruct (N.le_gt_cases (N.size p) 59) as [|Hgt]; [lia|].
    assert (2 ^ 60 <= 2 ^ N.size p) by (apply N.pow_le_mono_r; lia).
    lia. }
  destruct (N.eqb_spec (N.size p - 53) 0) as [|Hne]; [lia|].
  cbv zeta. rewrite N.shiftl_mul_pow2, N.shiftr_div_pow2.
  set (s := N.size p - 53) in *.
  etrans; [apply round_up_near; lia|].
  apply N.add_le_mono_l.
  change 32 with (2 ^ 5). apply N.pow_le_mono_r; lia.
Qed.

(** A draw stays inside a population of the size of the alphabet: the
    index is below its length. *)
Lemma choice_index_lt r n :
  r < 2 ^ 53 → 32 < n → n < 64 → choice_index r n < n.
Proof.
  intros Hr Hlo Hhi. unfold choice_index.
  apply N.Div0.div_lt_upper_bound.
  pose proof (round53_near (r * n)) as Hnear. nia.
Qed.

(** Drawing [n] characters of a string of the size of the alphabet
    succeeds, consumes [n] values of the generator and yields characters
    of the string. *)
Lemma draw_chars n cs w :
  (32 < length cs < 64)%nat →
  ∃ picked,
    draw n (chars cs) w = (Ok (chars picked), advance n w)
    ∧ length picked = n
    ∧ Forall (fun c => c ∈ cs) picked.
Proof.
  intros Hcs. revert w. induction n as [|n IH]; intros w.
  - exists []. by rewrite advance_0.
  - cbn [draw].
    set (r := rng_tape w (rng_pos w) mod 2 ^ 53).
    set (i := N.to_nat (choice_index r (N.of_nat (length (chars cs))))).
    assert (Hi : (i < length cs)%nat).
    { subst i. unfold chars. rewrite length_fmap.
      assert (choice_index r (N.of_nat (length cs)) < N.of_nat (length cs)).
      { apply choice_index_lt; [by apply N.mod_lt|lia|lia]. }
      lia. }
    destruct (lookup_lt_is_Some_2 cs i Hi) as [c Hc].
    destruct (IH (mkWorld (globals w) (rng_tape w) (S (rng_pos w))))
      as (picked & Hdraw & Hlen & Hin).
    exists (c :: picked). split_and!.
    + erewrite bind_ok by reflexivity. fold r. fold i.
      unfold chars at 1. rewrite list_lookup_fmap, Hc.
      cbn [fmap option_fmap option_map].
      erewrite bind_ok by exact Hdraw.
      by rewrite advance_S.
    + cbn. by rewrite Hlen.
    + constructor; [|done]. by eapply list_elem_of_lookup_2.
Qed.

(** Joining one-character strings with the empty separator gives back
    the characters. *)
Lemma join_items_str sep s rest :
  join_items sep (PyStr s :: rest)
  = match rest with
    | [] => Some s
    | _ :: _ => (fun r => s ++ sep ++ r) <$> join_items sep rest
    end.
Proof. reflexivity. Qed.

Lemma join_chars cs : join_items [] (chars cs) = Some cs.
Proof.
  induction cs as [|c cs IH]; [done|].
  change (chars (c :: cs)) with (PyStr [c] :: chars cs).
  rewrite join_items_str, IH. by destruct cs.
Qed.

(** The conversion of the count. *)
Lemma repeat_count_fits k :
  (PY_SSIZE_T_MIN <= k <= PY_SSIZE_T_MAX)%Z → repeat_count (PyInt k) = Ok k.
Proof.
  intros Hk. unfold repeat_count.
  destruct (Z.leb_spec PY_SSIZE_T_MIN k); [|lia].
  destruct (Z.leb_spec k PY_SSIZE_T_MAX); [done|lia].
Qed.

Lemma repeat_count_overflow k :
  (k < PY_SSIZE_T_MIN ∨ PY_SSIZE_T_MAX < k)%Z →
  repeat_count (PyInt k) = Raise OverflowError.
Proof.
  intros Hk. unfold repeat_count.
  destruct (Z.leb_spec PY_SSIZE_T_MIN k); [|done].
  destruct (Z.leb_spec k PY_SSIZE_T_MAX); [lia|done].
Qed.

(** The body once the two names resolve to the library modules: the call
    of [random.choices] on the alphabet, then the join. *)
Lemma make_id_to_choices w (k : pyobj) :
  globals w !! "random"%string = Some (PyModule mod_random) →
  globals w !! "string"%string = Some (PyModule mod_string) →
  make_id k w
  = (random_choices (PyStr alphabet) k ≫= str_join []) w.
Proof.
  intros Hr Hs. unfold make_id.
  rewrite (bind_ok _ _ _ _ _ (load_global_bound _ _ _ Hr)).
  erewrite bind_ok by reflexivity.
  rewrite (bind_ok _ _ _ _ _ (load_global_bound _ _ _ Hs)).
  erewrite bind_ok by reflexivity.
  rewrite (bind_ok _ _ _ _ _ (load_global_bound _ _ _ Hs)).
  erewrite bind_ok by reflexivity.
  erewrite bind_ok by reflexivity.
  reflexivity.
Qed.

(** For an integer [k] that fits a [ssize_t] it returns [Z.to_nat k]
    characters of the alphabet and advances the generator by as many
    draws. *)
Lemma make_id_with_names w k :
  globals w !! "random"%string = Some (PyModule mod_random) →
  globals w !! "string"%string = Some (PyModule mod_string) →
  (PY_SSIZE_T_MIN <= k <= PY_SSIZE_T_MAX)%Z →
  ∃ ident,
    make_id (PyInt k) w = (Ok (PyStr ident), advance (Z.to_nat k) w)
    ∧ length ident = Z.to_nat k
    ∧ Forall is_id_char ident.
Proof.
  intros Hr Hs Hk.
  destruct (draw_chars (Z.to_nat k) alphabet w) as (ident & Hd & Hlen & Hin);
    [change (length alphabet) with 36%nat; lia|].
  exists ident. split_and!; [|done|].
  - rewrite make_id_to_choices by done.
    erewrite bind_ok.
    2:{ unfold random_choices. rewrite repeat_count_fits by done.
        cbn [sequence_items]. fold (chars alphabet).
        erewrite bind_ok by exact Hd. reflexivity. }
    unfold str_join. cbn [sequence_items].
    by rewrite join_chars.
  - eapply Forall_impl; [exact Hin|]. intros c Hc. cbn beta in Hc.
    by eapply (proj1 (Forall_forall _ _) alphabet_id_chars).
Qed.

(** For an integer that does not fit, the conversion fails before any
    draw. *)
Lemma make_id_overflow w k :
  globals w !! "random"%string = Some (PyModule mod_random) →
  globals w !! "string"%string = Some (PyModule mod_string) →
  (k < PY_SSIZE_T_MIN ∨ PY_SSIZE_T_MAX < k)%Z →
  make_id (PyInt k) w = (Raise OverflowError, w).
Proof.
  intros Hr Hs Hk. rewrite make_id_to_choices by done.
  erewrite bind_raise; [reflexivity|].
  unfold random_choices. rewrite repeat_count_overflow by done.
  reflexivity.
Qed.

(** The body in a namespace where [random] is unbound. *)
Lemma make_id_random_unbound (k : pyobj) w :
  globals w !! "random"%string = None →
  make_id k w = (Raise (NameError "random"), w).
Proof.
  intros H. unfold make_id. erewrite bind_raise; [reflexivity|].
  apply load_global_unbound; [done | compute_done].
Qed.

(** The body in a namespace where [random] is bound and [string] is not. *)
Lemma make_id_string_unbound (k : pyobj) w :
  globals w !! "random"%string = Some (PyModule mod_random) →
  globals w !! "string"%string = None →
  make_id k w = (Raise (NameError "string"), w).
Proof.
  intros Hr Hs. unfold make_id.
  rewrite (bind_ok _ _ _ _ _ (load_global_bound _ _ _ Hr)).
  erewrite bind_ok by reflexivity.
  erewrite bind_raise; [reflexivity|].
  apply load_global_unbound; [done | compute_done].
Qed.

End Identifier.

(** ** The identifier generator: what the specification states *)

(** C9. As written, every call of [make_id], whatever its argument,
    raises [NameError] on [random] and returns no identifier: the body
    refers to [random] and [string], the file binds neither (it imports
    [hashlib] only), and neither is a builtin.  The call fails in this way
    in every namespace that leaves [random] unbound. *)
Theorem make_id_name_error (k : pyobj) (w : World) :
  globals w !! "random"%string = None →
  make_id k w = (Raise (NameError "random"), w)
  ∧ (∀ r w', make_id k w ≠ (Ok r, w'))
  ∧ utils_globals !! "random"%string = None
  ∧ utils_globals !! "string"%string = None
  ∧ ("random"%string ∉ builtin_names)
  ∧ ("string"%string ∉ builtin_names).
Proof.
  intros Hr.
  split_and!; [| |done|done|compute_done|compute_done].
  - by apply make_id_random_unbound.
  - intros r w'. by rewrite make_id_random_unbound.
Qed.

Lemma make_id_name_error_witness :
  make_id (PyStr (lit "eight")) (utils_world (fun i => N.of_nat i))
  = (Raise (NameError "random"), utils_world (fun i => N.of_nat i)).
Proof.
  apply (make_id_name_error (PyStr (lit "eight"))
           (utils_world (fun i => N.of_nat i))).
  reflexivity.
Defined.

(** C7, at the default argument.  The specification asks for a string of
    [k] characters of [a-z0-9]; in the module as written the call
    [make_id()] raises [NameError] before any character is drawn.  (With
    the two names bound, [make_id_with_names] gives what is asked for.) *)
Theorem make_id_default_fails (tape : nat → N) :
  make_id_default (utils_world tape)
  = (Raise (NameError "random"), utils_world tape).
Proof. by apply make_id_random_unbound. Qed.

(** C8, as the code has it.  [make_id] does not validate its length: the
    body hands [k] to [random.choices] unchecked.  Whenever [random] and
    [string] resolve to the library modules, the call fails for no
    integer [k] that fits a C [ssize_t]: it returns a string of [k]
    characters when [0 <= k < 2^63], and for [-2^63 <= k < 0] the empty
    string, drawing nothing, where the specification expects an
    invalid-argument error.  For an integer that does not fit, negative or
    positive, the conversion of the count raises [OverflowError] before
    anything is drawn. *)
Theorem make_id_no_validation (w : World) (k : Z) :
  globals w !! "random"%string = Some (PyModule mod_random) →
  globals w !! "string"%string = Some (PyModule mod_string) →
  ((PY_SSIZE_T_MIN <= k <= PY_SSIZE_T_MAX)%Z →
   ∃ ident,
     make_id (PyInt k) w = (Ok (PyStr ident), advance (Z.to_nat k) w)
     ∧ length ident = Z.to_nat k
     ∧ ((k < 0)%Z → ident = [] ∧ advance (Z.to_nat k) w = w))
  ∧ ((k < PY_SSIZE_T_MIN ∨ PY_SSIZE_T_MAX < k)%Z →
     make_id (PyInt k) w = (Raise OverflowError, w)).
Proof.
  intros Hr Hs. split.
  - intros Hfit.
    destruct (make_id_with_names w k Hr Hs Hfit) as (ident & Hrun & Hlen & _).
    exists ident. split_and!; [done..|].
    intros Hk. rewrite Z2Nat.nonpos in * by lia.
    split; [by apply nil_length_inv | apply advance_0].
  - by apply make_id_overflow.
Qed.

Lemma make_id_no_validation_witness :
  ∃ ident,
    make_id (PyInt (-3)) (with_imports (utils_world (fun i => N.of_nat i)))
    = (Ok (PyStr ident),
       advance (Z.to_nat (-3))
         (with_imports (utils_world (fun i => N.of_nat i))))
    ∧ length ident = Z.to_nat (-3)
    ∧ ((-3 < 0)%Z →
       ident = []
       ∧ advance (Z.to_nat (-3))
           (with_imports (utils_world (fun i => N.of_nat i)))
         = with_imports (utils_world (fun i => N.of_nat i))).
Proof.
  refine (proj1 (make_id_no_validation
                   (with_imports (utils_world (fun i => N.of_nat i))) (-3)
                   _ _) _).
  - reflexivity.
  - reflexivity.
  - cbv [PY_SSIZE_T_MIN PY_SSIZE_T_MAX]. lia.
Defined.

(** C8 as stated fails at [k = -1]: as written the call raises
    [NameError], which is raised before [k] is looked at and is not an
    invalid-argument error; with the names bound it returns the empty
    string. *)
Lemma make_id_negative_length :
  fst (make_id (PyInt (-1)) (utils_world (fun _ => 0)))
  = Raise (NameError "random")
  ∧ fst (make_id (PyInt (-1)) (with_imports (utils_world (fun _ => 0))))
    = Ok (PyStr [])
  ∧ fst (make_id (PyInt (-1)) (utils_world (fun _ => 0))) ≠ Raise ValueError
  ∧ fst (make_id (PyInt (-1)) (with_imports (utils_world (fun _ => 0))))
    ≠ Raise ValueError.
Proof. split_and!; [reflexivity | reflexivity | discriminate | discriminate]. Qed.


(** * Further properties of the three functions *)

(** ** The password digest: errors and what a result looks like *)

Section DigestErrors.

Implicit Types (s : list N) (w : World) (v : pyobj).

Lemma first_surrogate_none pos s :
  first_surrogate pos s = None ↔ Forall (fun c => is_surrogate c = false) s.
Proof.
  revert pos. induction s as [|c s IH]; intros pos; cbn.
  - split; [constructor | done].
  - rewrite Forall_cons. destruct (is_surrogate c).
    + split; [done | by intros [? _]].
    + rewrite IH. tauto.
Qed.

Lemma first_surrogate_at s1 c s2 :
  Forall (fun x => is_surrogate x = false) s1 →
  is_surrogate c = true →
  first_surrogate 0 (s1 ++ c :: s2) = Some (length s1).
Proof.
  intros Hs1 Hc. rewrite first_surrogate_app.
  rewrite (proj2 (first_surrogate_none 0 s1) Hs1). cbn. by rewrite Hc.
Qed.

(** The body on any string: the digest, or the codec's error. *)
Lemma hash_weak_password_cases s w :
  globals w !! "hashlib"%string = Some (PyModule mod_hashlib) →
  hash_weak_password (PyStr s) w
  = match first_surrogate 0 s with
    | None => (Ok (PyStr (salted_sha256_hex s)), w)
    | Some i => (Raise (UnicodeEncodeError (6 + i)), w)
    end.
Proof.
  intros Hg. destruct (first_surrogate 0 s) as [i|] eqn:Hi.
  - by apply hash_weak_password_surrogate.
  - unfold hash_weak_password.
    rewrite (bind_ok _ _ _ _ _ (load_global_bound _ _ _ Hg)).
    cbn [getattr module_attr String.eqb Ascii.eqb Bool.eqb].
    erewrite bind_ok by reflexivity.
    erewrite bind_ok by reflexivity.
    erewrite bind_ok.
    2:{ unfold method_encode. rewrite first_surrogate_app.
        change (first_surrogate 0 (lit "salty$")) with (@None nat). cbn match.
        change (0 + length (lit "salty$"))%nat with 6%nat.
        rewrite first_surrogate_shift, Hi. reflexivity. }
    erewrite bind_ok by reflexivity.
    reflexivity.
Qed.

End DigestErrors.

(** X1. A string whose first lone surrogate stands at index [i] makes
    [hash_weak_password] raise [UnicodeEncodeError] at position [6 + i]:
    the position counts the six characters of the salt.  Nothing is
    hashed and the state is unchanged. *)
Theorem hash_weak_password_error_position
    (w : World) (s1 : list N) (c : N) (s2 : list N) :
  globals w !! "hashlib"%string = Some (PyModule mod_hashlib) →
  Forall (fun x => is_surrogate x = false) s1 →
  is_surrogate c = true →
  hash_weak_password (PyStr (s1 ++ c :: s2)) w
  = (Raise (UnicodeEncodeError (6 + length s1)), w).
Proof.
  intros Hg Hs1 Hc.
  by rewrite hash_weak_password_cases, (first_surrogate_at s1 c s2).
Qed.

Lemma hash_weak_password_error_position_witness :
  hash_weak_password (PyStr (lit "pw" ++ 0xDC00 :: lit "x"))
    (utils_world (fun _ => 0))
  = (Raise (UnicodeEncodeError (6 + length (lit "pw"))),
     utils_world (fun _ => 0)).
Proof.
  apply (hash_weak_password_error_position
           (utils_world (fun _ => 0)) (lit "pw") 0xDC00 (lit "x")).
  - reflexivity.
  - repeat (constructor; [reflexivity|]). constructor.
  - reflexivity.
Defined.

(** X2. On a string, [hash_weak_password] returns a value exactly when
    the string has no lone surrogate. *)
Theorem hash_weak_password_returns_iff (w : World) (s : list N) :
  globals w !! "hashlib"%string = Some (PyModule mod_hashlib) →
  (∃ r w', hash_weak_password (PyStr s) w = (Ok r, w'))
  ↔ Forall (fun c => is_surrogate c = false) s.
Proof.
  intros Hg. rewrite hash_weak_password_cases by done.
  rewrite <- (first_surrogate_none 0 s).
  destruct (first_surrogate 0 s) as [i|].
  - split; [by intros (r & w' & ?) | done].
  - split; [done | by eexists _, _].
Qed.

Lemma hash_weak_password_returns_iff_witness :
  (∃ r w', hash_weak_password (PyStr [0x20AC; 0xD83D; 0xDE00])
             (utils_world (fun _ => 0)) = (Ok r, w'))
  ↔ Forall (fun c => is_surrogate c = false) [0x20AC; 0xD83D; 0xDE00].
Proof.
  apply (hash_weak_password_returns_iff (utils_world (fun _ => 0))
           [0x20AC; 0xD83D; 0xDE00]).
  reflexivity.
Defined.

(** X3. When [hashlib] is the imported library, an argument that is
    [None], an [int], [bytes] or a list makes [hash_weak_password] raise
    [TypeError], from ["salty$" + s]; the state is unchanged. *)
Theorem hash_weak_password_type_error (w : World) (v : pyobj) :
  globals w !! "hashlib"%string = Some (PyModule mod_hashlib) →
  is_data v = true →
  is_str v = false →
  hash_weak_password v w = (Raise TypeError, w).
Proof.
  intros Hg Hd Hv. unfold hash_weak_password.
  rewrite (bind_ok _ _ _ _ _ (load_global_bound _ _ _ Hg)).
  cbn [getattr module_attr String.eqb Ascii.eqb Bool.eqb].
  erewrite bind_ok by reflexivity.
  erewrite bind_raise; [reflexivity|].
  by destruct v.
Qed.

Lemma hash_weak_password_type_error_witness :
  hash_weak_password (PyBytes (lit "password")) (utils_world (fun _ => 0))
  = (Raise TypeError, utils_world (fun _ => 0)).
Proof.
  apply (hash_weak_password_type_error (utils_world (fun _ => 0))
           (PyBytes (lit "password")));
    reflexivity.
Defined.



(** ** The identifier generator: what is drawn, and from where *)

Section Draws.

Implicit Types (w : World) (k : Z) (n i : nat).

Lemma drawn_char_advance w i :
  drawn_char (advance 1 w) i = drawn_char w (S i).
Proof.
  unfold drawn_char, advance. cbn [rng_tape rng_pos].
  by rewrite Nat.add_succ_r.
Qed.

Lemma drawn_id_S w n :
  drawn_id w (S n) = drawn_char w 0 :: drawn_id (advance 1 w) n.
Proof.
  unfold drawn_id. cbn [seq fmap list_fmap]. f_equal.
  rewrite <- fmap_S_seq, <- list_fmap_compose.
  apply list_fmap_ext. intros _ i _. symmetry. apply drawn_char_advance.
Qed.

Lemma drawn_id_length w n : length (drawn_id w n) = n.
Proof. unfold drawn_id. by rewrite length_fmap, length_seq. Qed.

Lemma drawn_id_lookup w n i :
  (i < n)%nat → drawn_id w n !! i = Some (drawn_char w i).
Proof.
  intros Hi. unfold drawn_id.
  by rewrite list_lookup_fmap, lookup_seq_lt.
Qed.

(** A drawn character is the alphabet's character at an index below 36. *)
Lemma drawn_char_lookup w i :
  alphabet
    !! N.to_nat (choice_index (rng_tape w (i + rng_pos w) mod 2 ^ 53) 36)
  = Some (drawn_char w i).
Proof.
  set (j := N.to_nat (choice_index (rng_tape w (i + rng_pos w) mod 2 ^ 53) 36)).
  assert (Hj : (j < length alphabet)%nat).
  { change (length alphabet) with 36%nat. subst j.
    assert (choice_index (rng_tape w (i + rng_pos w) mod 2 ^ 53) 36 < 36)
      by (apply choice_index_lt; [by apply N.mod_lt | lia | lia]).
    lia. }
  destruct (lookup_lt_is_Some_2 _ _ Hj) as [c Hc].
  rewrite Hc. f_equal. symmetry. by apply nth_lookup_Some.
Qed.

Lemma drawn_char_id_char w i : is_id_char (drawn_char w i).
Proof.
  apply (proj1 (Forall_forall _ _) alphabet_id_chars).
  eapply list_elem_of_lookup_2, drawn_char_lookup.
Qed.

Lemma drawn_id_chars w n : Forall is_id_char (drawn_id w n).
Proof.
  unfold drawn_id. apply Forall_fmap, Forall_forall.
  intros i _. apply drawn_char_id_char.
Qed.

Lemma advance_advance n m w : advance m (advance n w) = advance (n + m) w.
Proof. unfold advance. cbn. f_equal. lia. Qed.

Lemma drawn_char_advance_n w n i :
  drawn_char (advance n w) i = drawn_char w (n + i).
Proof.
  unfold drawn_char, advance. cbn [rng_tape rng_pos].
  by replace (i + (n + rng_pos w))%nat with (n + i + rng_pos w)%nat by lia.
Qed.

Lemma drawn_id_app w n m :
  drawn_id w (n + m) = drawn_id w n ++ drawn_id (advance n w) m.
Proof.
  unfold drawn_id. rewrite seq_app, fmap_app. f_equal.
  cbn [Nat.add]. rewrite <- (Nat.add_0_r n) at 1.
  rewrite <- fmap_add_seq, <- list_fmap_compose.
  apply list_fmap_ext. intros _ i _. symmetry. apply drawn_char_advance_n.
Qed.

(** Drawing from the alphabet, value by value. *)
Lemma draw_alphabet n w :
  draw n (chars alphabet) w = (Ok (chars (drawn_id w n)), advance n w).
Proof.
  revert w. induction n as [|n IH]; intros w.
  - by rewrite advance_0.
  - cbn [draw]. erewrite bind_ok by reflexivity.
    change (N.of_nat (length (chars alphabet))) with 36.
    cbn [rng_tape rng_pos].
    unfold chars at 1. rewrite list_lookup_fmap.
    pose proof (drawn_char_lookup w 0) as Hc. cbn [Nat.add] in Hc.
    rewrite Hc. cbn [fmap option_fmap option_map].
    erewrite bind_ok by apply IH.
    rewrite drawn_id_S. unfold mret, Py_ret. f_equal.
    change (mkWorld (globals w) (rng_tape w) (S (rng_pos w)))
      with (advance 1 w).
    by rewrite advance_advance.
Qed.

(** The body once the two names resolve to the library modules, for a
    count that fits a [ssize_t]. *)
Lemma make_id_drawn w k :
  globals w !! "random"%string = Some (PyModule mod_random) →
  globals w !! "string"%string = Some (PyModule mod_string) →
  (PY_SSIZE_T_MIN <= k <= PY_SSIZE_T_MAX)%Z →
  make_id (PyInt k) w
  = (Ok (PyStr (drawn_id w (Z.to_nat k))), advance (Z.to_nat k) w).
Proof.
  intros Hr Hs Hk. rewrite make_id_to_choices by done.
  erewrite bind_ok.
  2:{ unfold random_choices. rewrite repeat_count_fits by done.
      cbn [sequence_items]. fold (chars alphabet).
      erewrite bind_ok by apply draw_alphabet. reflexivity. }
  unfold str_join. cbn [sequence_items].
  by rewrite join_chars.
Qed.

End Draws.

(** ** What a call may do to the state *)

Section Frame.

Context {A B : Type}.

Lemma draws_at_most_refl n w : draws_at_most n w w.
Proof. unfold draws_at_most. split_and!; [done|done|lia|lia]. Qed.

Lemma draws_at_most_trans n m w1 w2 w3 :
  draws_at_most n w1 w2 → draws_at_most m w2 w3 →
  draws_at_most (n + m) w1 w3.
Proof.
  unfold draws_at_most. intros (Hg1 & Ht1 & Hp1) (Hg2 & Ht2 & Hp2).
  split_and!; [congruence|congruence|lia|lia].
Qed.

Lemma draws_at_most_weaken n m w w' :
  (n ≤ m)%nat → draws_at_most n w w' → draws_at_most m w w'.
Proof.
  unfold draws_at_most. intros Hle (Hg & Ht & Hp).
  split_and!; [done|done|lia|lia].
Qed.

Lemma consumes_ret (a : A) : consumes (mret a : Py A) 0.
Proof. intros w. apply draws_at_most_refl. Qed.

Lemma consumes_raise e : consumes (raise e : Py A) 0.
Proof. intros w. apply draws_at_most_refl. Qed.

Lemma consumes_bind (m : Py A) (f : A → Py B) n1 n2 :
  consumes m n1 → (∀ a, consumes (f a) n2) → consumes (m ≫= f) (n1 + n2).
Proof.
  intros Hm Hf w. unfold mbind, Py_bind.
  specialize (Hm w). destruct (m w) as [[a|e] w1]; cbn [snd] in *.
  - eapply draws_at_most_trans; [exact Hm | apply Hf].
  - eapply draws_at_most_weaken; [|exact Hm]. lia.
Qed.

Lemma consumes_weaken {C : Type} (m : Py C) n n' :
  (n ≤ n')%nat → consumes m n → consumes m n'.
Proof. intros Hle Hm w. by eapply draws_at_most_weaken. Qed.

Lemma consumes_bind_l (m : Py A) (f : A → Py B) n :
  consumes m n → (∀ a, consumes (f a) 0) → consumes (m ≫= f) n.
Proof.
  intros Hm Hf. apply consumes_weaken with (n + 0)%nat; [lia|].
  by apply consumes_bind.
Qed.

Lemma consumes_bind_r (m : Py A) (f : A → Py B) n :
  consumes m 0 → (∀ a, consumes (f a) n) → consumes (m ≫= f) n.
Proof. intros Hm Hf. by apply (consumes_bind m f 0 n). Qed.

End Frame.

Section FrameOfBodies.

Lemma consumes_fail {A : Type} e n : consumes (raise e : Py A) n.
Proof.
  apply consumes_weaken with 0%nat; [lia | apply consumes_raise].
Qed.

Lemma consumes_load_global name : consumes (load_global name) 0.
Proof.
  intros w. unfold load_global.
  destruct (globals w !! name); [|case_bool_decide]; apply draws_at_most_refl.
Qed.

Lemma consumes_getattr obj attr : consumes (getattr obj attr) 0.
Proof.
  intros w. unfold getattr.
  destruct obj; try apply draws_at_most_refl.
  destruct (module_attr _ attr); apply draws_at_most_refl.
Qed.

Lemma consumes_binary_add x y : consumes (binary_add x y) 0.
Proof.
  intros w. unfold binary_add.
  destruct x, y; apply draws_at_most_refl.
Qed.

Lemma consumes_rng_random : consumes rng_random 1.
Proof.
  intros w. unfold draws_at_most. cbn. split_and!; [done|done|lia|lia].
Qed.

Lemma consumes_draw n population : consumes (draw n population) n.
Proof.
  induction n as [|n IH]; [apply consumes_ret|].
  cbn [draw]. change (S n) with (1 + n)%nat.
  apply consumes_bind; [apply consumes_rng_random|].
  intros r. destruct (population !! _); [|apply consumes_fail].
  apply consumes_bind_l; [exact IH|].
  intros rest. apply consumes_ret.
Qed.

Lemma consumes_call_choices f population k :
  consumes (call_choices f population k) (draws_asked k).
Proof.
  unfold call_choices.
  destruct f as [| | | | | |f| | |]; try apply consumes_fail.
  destruct f; [apply consumes_fail|].
  unfold random_choices, draws_asked.
  destruct (sequence_items population); [|apply consumes_fail].
  destruct (repeat_count k) as [z|e]; [|apply consumes_fail].
  apply consumes_bind_l; [apply consumes_draw|].
  intros picks. apply consumes_ret.
Qed.

Lemma consumes_str_join sep iterable : consumes (str_join sep iterable) 0.
Proof.
  intros w. unfold str_join.
  destruct (sequence_items iterable) as [items|]; [|apply draws_at_most_refl].
  destruct (join_items sep items); apply draws_at_most_refl.
Qed.

Lemma consumes_make_id k : consumes (make_id k) (draws_asked k).
Proof.
  unfold make_id.
  apply consumes_bind_r; [apply consumes_load_global|]. intros random.
  apply consumes_bind_r; [apply consumes_getattr|]. intros choices.
  apply consumes_bind_r; [apply consumes_load_global|]. intros string_l.
  apply consumes_bind_r; [apply consumes_getattr|]. intros lowercase.
  apply consumes_bind_r; [apply consumes_load_global|]. intros string_r.
  apply consumes_bind_r; [apply consumes_getattr|]. intros digits.
  apply consumes_bind_r; [apply consumes_binary_add|]. intros population.
  apply consumes_bind_l; [apply consumes_call_choices|]. intros picked.
  apply consumes_str_join.
Qed.

End FrameOfBodies.

(** X5. With [random] and [string] bound to the library modules and a
    count [k] that fits a C [ssize_t], [make_id(k)] returns the identifier
    whose [i]-th character is the alphabet's character at index
    [floor(r_i * 36.0)], [r_i] being the [i]-th next value of the shared
    generator; it consumes [max(k, 0)] values, one per character, and
    every character is in [a-z0-9]. *)
Theorem make_id_draws (w : World) (k : Z) :
  globals w !! "random"%string = Some (PyModule mod_random) →
  globals w !! "string"%string = Some (PyModule mod_string) →
  (PY_SSIZE_T_MIN <= k <= PY_SSIZE_T_MAX)%Z →
  make_id (PyInt k) w
  = (Ok (PyStr (drawn_id w (Z.to_nat k))), advance (Z.to_nat k) w)
  ∧ length (drawn_id w (Z.to_nat k)) = Z.to_nat k
  ∧ Forall is_id_char (drawn_id w (Z.to_nat k))
  ∧ (∀ i, (i < Z.to_nat k)%nat →
       drawn_id w (Z.to_nat k) !! i
       = alphabet
           !! N.to_nat
                (choice_index (rng_tape w (i + rng_pos w) mod 2 ^ 53) 36)).
Proof.
  intros Hr Hs Hk. split_and!.
  - by apply make_id_drawn.
  - apply drawn_id_length.
  - apply drawn_id_chars.
  - intros i Hi. by rewrite drawn_id_lookup, drawn_char_lookup.
Qed.

Lemma make_id_draws_witness :
  make_id (PyInt 8)
    (with_imports (utils_world (fun i => N.of_nat i * 2862933555777941757)))
  = (Ok (PyStr (lit "a4ztoid8")),
     advance 8
       (with_imports
          (utils_world (fun i => N.of_nat i * 2862933555777941757)))).
Proof.
  refine (eq_trans
    (proj1 (make_id_draws
              (with_imports
                 (utils_world (fun i => N.of_nat i * 2862933555777941757)))
              8 _ _ _)) _).
  - reflexivity.
  - reflexivity.
  - cbv [PY_SSIZE_T_MIN PY_SSIZE_T_MAX]. lia.
  - vm_compute. reflexivity.
Defined.

(** X6. Successive calls continue the generator's sequence: with the two
    names bound and [j], [k] not negative, [j + k] fitting a C [ssize_t],
    [make_id(j)] followed by [make_id(k)] returns two identifiers whose
    concatenation is what [make_id(j + k)] returns from the same starting
    state, and both ways leave the generator in the same state. *)
Theorem make_id_successive (w : World) (j k : Z) :
  globals w !! "random"%string = Some (PyModule mod_random) →
  globals w !! "string"%string = Some (PyModule mod_string) →
  (0 <= j)%Z → (0 <= k)%Z → (j + k <= PY_SSIZE_T_MAX)%Z →
  ∃ a b w1 w2,
    make_id (PyInt j) w = (Ok (PyStr a), w1)
    ∧ make_id (PyInt k) w1 = (Ok (PyStr b), w2)
    ∧ make_id (PyInt (j + k)) w = (Ok (PyStr (a ++ b)), w2).
Proof.
  intros Hr Hs Hj Hk Hjk.
  assert (PY_SSIZE_T_MIN <= 0)%Z by (cbv [PY_SSIZE_T_MIN]; lia).
  exists (drawn_id w (Z.to_nat j)),
         (drawn_id (advance (Z.to_nat j) w) (Z.to_nat k)),
         (advance (Z.to_nat j) w),
         (advance (Z.to_nat k) (advance (Z.to_nat j) w)).
  split_and!.
  - apply make_id_drawn; [done|done|lia].
  - apply make_id_drawn; [done|done|lia].
  - rewrite make_id_drawn; [|done|done|lia].
    rewrite Z2Nat.inj_add by done.
    by rewrite drawn_id_app, advance_advance.
Qed.

Lemma make_id_successive_witness :
  ∃ a b w1 w2,
    make_id (PyInt 3)
      (with_imports (utils_world (fun i => N.of_nat i * 977)))
    = (Ok (PyStr a), w1)
    ∧ make_id (PyInt 5) w1 = (Ok (PyStr b), w2)
    ∧ make_id (PyInt (3 + 5))
        (with_imports (utils_world (fun i => N.of_nat i * 977)))
      = (Ok (PyStr (a ++ b)), w2).
Proof.
  apply (make_id_successive
           (with_imports (utils_world (fun i => N.of_nat i * 977))) 3 5);
    [reflexivity | reflexivity | lia | lia
    | cbv [PY_SSIZE_T_MAX]; lia].
Defined.

(** X7. With the two names bound, a length that is [None], a [str],
    [bytes] or a list makes [make_id] raise [TypeError] before any value
    is drawn from the generator. *)
Theorem make_id_length_type_error (w : World) (k : pyobj) :
  globals w !! "random"%string = Some (PyModule mod_random) →
  globals w !! "string"%string = Some (PyModule mod_string) →
  is_data k = true →
  is_int k = false →
  make_id k w = (Raise TypeError, w).
Proof.
  intros Hr Hs Hd Hk. rewrite make_id_to_choices by done.
  erewrite bind_raise; [reflexivity|].
  unfold random_choices. cbn [sequence_items].
  by destruct k.
Qed.

Lemma make_id_length_type_error_witness :
  make_id (PyStr (lit "8")) (with_imports (utils_world (fun _ => 0)))
  = (Raise TypeError, with_imports (utils_world (fun _ => 0))).
Proof.
  apply (make_id_length_type_error
           (with_imports (utils_world (fun _ => 0))) (PyStr (lit "8")));
    reflexivity.
Defined.

(** X8. Binding [random] alone does not repair [make_id]: with [random]
    bound to the library module and [string] still unbound, every call
    raises [NameError] on [string], whatever the argument, and draws
    nothing. *)
Theorem make_id_needs_string (w : World) (k : pyobj) :
  globals w !! "random"%string = Some (PyModule mod_random) →
  globals w !! "string"%string = None →
  make_id k w = (Raise (NameError "string"), w).
Proof. intros Hr Hs. by apply make_id_string_unbound. Qed.

Lemma make_id_needs_string_witness :
  make_id (PyInt 8)
    (mkWorld (<["random" := PyModule mod_random]> utils_globals)
             (fun _ => 0) 0)
  = (Raise (NameError "string"),
     mkWorld (<["random" := PyModule mod_random]> utils_globals)
             (fun _ => 0) 0).
Proof.
  apply (make_id_needs_string
           (mkWorld (<["random" := PyModule mod_random]> utils_globals)
                    (fun _ => 0) 0)
           (PyInt 8));
    reflexivity.
Defined.

(** X9. For an argument that is [None], an [int], a [str], [bytes] or a
    list, and with each of the names [random] and [string] unbound or
    bound to a library module: whether it returns or raises, a call of
    [make_id] leaves the module's namespace as it is and only moves the
    shared generator forward, by at most [k] values when the argument is
    an integer [k] with [0 <= k < 2^63], and by none otherwise. *)
Theorem make_id_state_frame (k : pyobj) (w : World) :
  is_data k = true →
  unbound_or_module (globals w !! "random"%string) →
  unbound_or_module (globals w !! "string"%string) →
  globals (snd (make_id k w)) = globals w
  ∧ rng_tape (snd (make_id k w)) = rng_tape w
  ∧ (rng_pos w ≤ rng_pos (snd (make_id k w)))%nat
  ∧ (rng_pos (snd (make_id k w)) ≤ rng_pos w + draws_asked k)%nat.
Proof.
  intros _ _ _.
  destruct (consumes_make_id k w) as (Hg & Ht & Hlo & Hhi). done.
Qed.

Lemma make_id_state_frame_witness :
  globals (snd (make_id (PyInt 5) (with_imports (utils_world (fun _ => 7%N)))))
  = globals (with_imports (utils_world (fun _ => 7%N)))
  ∧ rng_tape (snd (make_id (PyInt 5)
                     (with_imports (utils_world (fun _ => 7%N)))))
    = rng_tape (with_imports (utils_world (fun _ => 7%N)))
  ∧ (rng_pos (with_imports (utils_world (fun _ => 7%N)))
     ≤ rng_pos (snd (make_id (PyInt 5)
                       (with_imports (utils_world (fun _ => 7%N))))))%nat
  ∧ (rng_pos (snd (make_id (PyInt 5)
                     (with_imports (utils_world (fun _ => 7%N)))))
     ≤ rng_pos (with_imports (utils_world (fun _ => 7%N)))
       + draws_asked (PyInt 5))%nat.
Proof.
  apply (make_id_state_frame (PyInt 5)
           (with_imports (utils_world (fun _ => 7%N))));
    [reflexivity | exact I | exact I].
Defined.

(** ** The bytes that are hashed *)

Section Utf8.

Implicit Types (c : N) (s : list N).

(** Bits set in disjoint places add up. *)
Lemma lor_high_low h k x : x < 2 ^ k → N.lor (h * 2 ^ k) x = h * 2 ^ k + x.
Proof.
  intros Hx.
  assert (Hland : N.land (h * 2 ^ k) x = 0).
  { apply N.bits_inj. intros n. rewrite N.land_spec, N.bits_0.
    destruct (N.lt_ge_cases n k) as [Hn|Hn].
    - rewrite <- N.shiftl_mul_pow2, N.shiftl_spec_low by done. done.
    - rewrite <- (N.mod_small x (2 ^ k)) by done.
      rewrite N.mod_pow2_bits_high by done. apply andb_false_r. }
  by rewrite <- N.lxor_lor, N.add_nocarry_lxor.
Qed.

Lemma utf8_cont_arith c k : utf8_cont c k = 128 + (c / 2 ^ (6 * k)) mod 64.
Proof.
  unfold utf8_cont. rewrite N.shiftr_div_pow2.
  change 0x3F with (N.ones 6). rewrite N.land_ones.
  change 0x80 with (2 * 2 ^ 6). change 128 with (2 * 2 ^ 6).
  apply lor_high_low. by apply N.mod_lt.
Qed.

Lemma utf8_lead_arith h k c n :
  c < 2 ^ (k + n) → N.lor (h * 2 ^ k) (N.shiftr c n) = h * 2 ^ k + c / 2 ^ n.
Proof.
  intros Hc. rewrite N.shiftr_div_pow2. apply lor_high_low.
  apply N.Div0.div_lt_upper_bound. by rewrite <- N.pow_add_r, (N.add_comm n k).
Qed.

Lemma utf8_char_arith c :
  c < 0x110000 →
  utf8_char c =
    if c <? 0x80 then [c]
    else if c <? 0x800 then [192 + c / 64; 128 + c mod 64]
    else if c <? 0x10000 then
      [224 + c / 4096; 128 + (c / 64) mod 64; 128 + c mod 64]
    else
      [240 + c / 262144; 128 + (c / 4096) mod 64; 128 + (c / 64) mod 64;
       128 + c mod 64].
Proof.
  intros Hc. unfold utf8_char. rewrite !utf8_cont_arith.
  change (2 ^ (6 * 0)) with 1. change (2 ^ (6 * 1)) with 64.
  change (2 ^ (6 * 2)) with 4096. rewrite N.div_1_r.
  destruct (N.ltb_spec c 0x80); [done|].
  destruct (N.ltb_spec c 0x800).
  { change 0xC0 with (3 * 2 ^ 6). rewrite (utf8_lead_arith 3 6 c 6) by (cbn; lia). done. }
  destruct (N.ltb_spec c 0x10000).
  { change 0xE0 with (7 * 2 ^ 5). rewrite (utf8_lead_arith 7 5 c 12) by (cbn; lia). done. }
  change 0xF0 with (15 * 2 ^ 4). rewrite (utf8_lead_arith 15 4 c 18) by (cbn; lia). done.
Qed.

Lemma digits64 c :
  c = 64 * (c / 64) + c mod 64 ∧ c mod 64 < 64
  ∧ c / 64 = 64 * (c / 4096) + (c / 64) mod 64 ∧ (c / 64) mod 64 < 64
  ∧ c / 4096 = 64 * (c / 262144) + (c / 4096) mod 64 ∧ (c / 4096) mod 64 < 64.
Proof.
  change 4096 with (64 * 64) at 1. change 262144 with (4096 * 64).
  rewrite <- !N.Div0.div_div.
  split_and!; try (by apply N.mod_lt); apply N.Div0.div_mod.
Qed.

Lemma utf8_char_prefix_inj c1 c2 r1 r2 :
  c1 < 0x110000 → c2 < 0x110000 →
  utf8_char c1 ++ r1 = utf8_char c2 ++ r2 → c1 = c2 ∧ r1 = r2.
Proof.
  intros H1 H2. rewrite !utf8_char_arith by done.
  pose proof (digits64 c1) as (Ha1 & Ha2 & Ha3 & Ha4 & Ha5 & Ha6).
  pose proof (digits64 c2) as (Hb1 & Hb2 & Hb3 & Hb4 & Hb5 & Hb6).
  revert Ha1 Ha2 Ha3 Ha4 Ha5 Ha6 Hb1 Hb2 Hb3 Hb4 Hb5 Hb6.
  generalize (c1 mod 64) ((c1 / 64) mod 64) ((c1 / 4096) mod 64)
             (c1 / 64) (c1 / 4096) (c1 / 262144).
  generalize (c2 mod 64) ((c2 / 64) mod 64) ((c2 / 4096) mod 64)
             (c2 / 64) (c2 / 4096) (c2 / 262144).
  intros.
  match goal with H : _ ++ r1 = _ ++ r2 |- _ => revert H end.
  destruct (N.ltb_spec c1 0x80), (N.ltb_spec c2 0x80);
    [|destruct (N.ltb_spec c2 0x800); [|destruct (N.ltb_spec c2 0x10000)]
     |destruct (N.ltb_spec c1 0x800); [|destruct (N.ltb_spec c1 0x10000)]
     |destruct (N.ltb_spec c1 0x800); [|destruct (N.ltb_spec c1 0x10000)];
      (destruct (N.ltb_spec c2 0x800); [|destruct (N.ltb_spec c2 0x10000)])];
    cbn [app]; intros Heq; simplify_eq; split; solve [done | lia].
Qed.

Lemma utf8_char_nonempty c : utf8_char c ≠ [].
Proof.
  unfold utf8_char.
  destruct (c <? 0x80); [done|].
  destruct (c <? 0x800); [done|].
  by destruct (c <? 0x10000).
Qed.

Lemma utf8_app s t : utf8 (s ++ t) = utf8 s ++ utf8 t.
Proof. unfold utf8. apply flat_map_app. Qed.

(** The encoding of a string determines the string. *)
Lemma utf8_inj s1 s2 :
  Forall (fun c => c < 0x110000) s1 →
  Forall (fun c => c < 0x110000) s2 →
  utf8 s1 = utf8 s2 → s1 = s2.
Proof.
  intros Hs1. revert s2.
  induction Hs1 as [|c1 s1 Hc1 _ IH]; intros s2 Hs2 Heq.
  - destruct Hs2 as [|c2 s2 _ _]; [done|].
    cbn in Heq. symmetry in Heq. apply app_eq_nil in Heq as [Heq _].
    by apply utf8_char_nonempty in Heq.
  - destruct Hs2 as [|c2 s2 Hc2 Hs2].
    + cbn in Heq. apply app_eq_nil in Heq as [Heq _].
      by apply utf8_char_nonempty in Heq.
    + change (utf8_char c1 ++ utf8 s1 = utf8_char c2 ++ utf8 s2) in Heq.
      apply utf8_char_prefix_inj in Heq as [-> Heq]; [|done|done].
      f_equal. by apply IH.
Qed.

End Utf8.

(** X10. Distinct passwords are never confused before hashing: for strings
    of Unicode scalar values (the strings [hash_weak_password] accepts),
    the bytes handed to SHA-256, the UTF-8 encoding of ["salty$" + s], are
    equal exactly when the strings are. *)
Theorem hashed_bytes_injective (s1 s2 : list N) :
  Forall is_scalar s1 →
  Forall is_scalar s2 →
  utf8 (lit "salty$" ++ s1) = utf8 (lit "salty$" ++ s2) ↔ s1 = s2.
Proof.
  intros Hs1 Hs2. split; [|by intros ->].
  rewrite !utf8_app. intros Heq%app_inv_head.
  apply utf8_inj; [| |done].
  - eapply Forall_impl; [exact Hs1|]. by intros c [Hc _].
  - eapply Forall_impl; [exact Hs2|]. by intros c [Hc _].
Qed.

Lemma hashed_bytes_injective_witness :
  utf8 (lit "salty$" ++ [0xE9]) = utf8 (lit "salty$" ++ [0xC3; 0xA9])
  ↔ [0xE9] = [0xC3; 0xA9].
Proof.
  apply (hashed_bytes_injective [0xE9] [0xC3; 0xA9]);
    repeat (constructor; [split; reflexivity|]); constructor.
Defined.


(** X12. The sanitizer neither breaks nor repairs a password: hashing the
    sanitized text returns a digest exactly when hashing the text itself
    does, since ['<'] is not a surrogate and no other character is
    touched. *)
Theorem hash_of_sanitized_returns_iff (w : World) (s : list N) :
  globals w !! "hashlib"%string = Some (PyModule mod_hashlib) →
  (∃ r w',
     hash_weak_password (PyStr (remove_unwanted_characters s)) w = (Ok r, w'))
  ↔ (∃ r w', hash_weak_password (PyStr s) w = (Ok r, w')).
Proof.
  intros Hg.
  assert (Hiff : ∀ s', (∃ r w', hash_weak_password (PyStr s') w = (Ok r, w'))
                       ↔ Forall (fun c => is_surrogate c = false) s').
  { intros s'. rewrite hash_weak_password_cases by done.
    rewrite <- (first_surrogate_none 0 s').
    destruct (first_surrogate 0 s') as [i|].
    - split; [by intros (r & w' & ?) | done].
    - split; [done | by eexists _, _]. }
  rewrite !Hiff, remove_unwanted_characters_delete, !Forall_forall.
  split.
  - intros H c Hc. destruct (N.eqb_spec c LT_SIGN) as [->|Hne]; [done|].
    apply H. by apply delete_char_elem.
  - intros H c Hc%delete_char_elem. apply H, Hc.
Qed.

Lemma hash_of_sanitized_returns_iff_witness :
  (∃ r w',
     hash_weak_password
       (PyStr (remove_unwanted_characters (lit "<b>" ++ [0xD800])))
       (utils_world (fun _ => 0)) = (Ok r, w'))
  ↔ (∃ r w', hash_weak_password (PyStr (lit "<b>" ++ [0xD800]))
               (utils_world (fun _ => 0)) = (Ok r, w')).
Proof.
  apply (hash_of_sanitized_returns_iff (utils_world (fun _ => 0))
           (lit "<b>" ++ [0xD800])).
  reflexivity.
Defined.
